(** * NextGen RAG ingestion script: chunking and classification

    A shallow embedding of [scripts/embedPDFWithMetadata.py] and the
    properties of it that the design document states.

    - Texts are sequences of code points, indices are integers, and
      slices, [rfind] and [strip] follow Python, negative indices
      included: the cursor of the chunker does become negative.
    - The patterns of the classifier are syntax trees that print back to
      the pattern literals; [re.search] is decided with derivatives and
      shown to decide the language of the pattern.
    - [create_chunks] is a transition system over the two nested loops:
      its while loop need not terminate, so a run is observed after any
      number of transitions, and the function returns when the
      transitions end within the fuel given.
    - The stages that call the embedding service, the index and the file
      system run in a state and exception monad over an abstract state
      of these services.  The messages printed by the exception handlers
      are kept; the progress messages of the stages are not. *)

From Stdlib Require Import ZArith List Bool Ascii String Lia.
From Stdlib Require Import DecimalString DecimalNat.
From Stdlib Require Import PrimFloat.
From Stdlib Require Import Sorted Permutation.
Import ListNotations.
Open Scope Z_scope.

(* ===================================================================== *)
(** * Part I: the program                                                 *)
(* ===================================================================== *)

(** ** Python strings

    A Python [str] is a sequence of Unicode code points; the page texts
    handled by the chunker are arbitrary such sequences.  Indices and
    lengths are Python integers, hence [Z]. *)

Definition char := N.
Definition pystr := list char.

(** ASCII literals of the script, as code point sequences. *)
Definition str (s : string) : pystr :=
  map N_of_ascii (list_ascii_of_string s).

Definition len {A} (s : list A) : Z := Z.of_nat (List.length s).

(** [s * n] for a string [s] and an integer [n]. *)
Fixpoint repeat_str (s : pystr) (n : nat) : pystr :=
  match n with
  | O => []
  | S k => s ++ repeat_str s k
  end.

(** Slice index adjustment of [s[i:j]]: a negative index counts from the
    end, then everything is clamped to [0, len s]. *)
Definition adjust_index (n i : Z) : Z :=
  if i <? 0 then Z.max 0 (i + n) else Z.min i n.

(** [s[i:j]] *)
Definition slice {A} (s : list A) (i j : Z) : list A :=
  let lo := adjust_index (len s) i in
  let hi := adjust_index (len s) j in
  firstn (Z.to_nat (hi - lo)) (skipn (Z.to_nat lo) s).

(** [s.rfind(c)] for a one-character needle: the highest index holding
    [c], or -1. *)
Fixpoint rfind_from (c : char) (s : pystr) (i last : Z) : Z :=
  match s with
  | [] => last
  | x :: s' => rfind_from c s' (i + 1) (if N.eqb x c then i else last)
  end.

Definition rfind (c : char) (s : pystr) : Z := rfind_from c s 0 (-1).

(** The characters removed by [str.strip()]: those for which
    [str.isspace] holds. *)
Definition is_space (c : char) : bool :=
  ((9 <=? c) && (c <=? 13) || (28 <=? c) && (c <=? 32)
   || (c =? 133) || (c =? 160) || (c =? 5760)
   || (8192 <=? c) && (c <=? 8202)
   || (c =? 8232) || (c =? 8233) || (c =? 8239) || (c =? 8287)
   || (c =? 12288))%N.

Fixpoint lstrip (s : pystr) : pystr :=
  match s with
  | [] => []
  | c :: s' => if is_space c then lstrip s' else s
  end.

Definition rstrip (s : pystr) : pystr := rev (lstrip (rev s)).

(** [s.strip()] *)
Definition strip (s : pystr) : pystr := rstrip (lstrip s).

Definition period : char := 46%N.
Definition newline : char := 10%N.

(** [f'{n}'] for a non-negative integer, and the reading back of such
    a numeral. *)
Definition format_int (n : nat) : string :=
  NilEmpty.string_of_uint (Nat.to_uint n).

Definition parse_int (s : string) : option nat :=
  option_map Nat.of_uint (NilEmpty.uint_of_string s).

(** ** Configuration *)

Definition pdf_path : string := "NextGen-User Manual.pdf".
Definition chunk_size : Z := 800.
Definition chunk_overlap : Z := 150.
Definition embedding_batch_size : Z := 100.

(** [CONFIG['chunk_size'] * 0.7] is a binary64 product: the literal 0.7
    denotes the nearest double, [0x1.6666666666666p-1], and the rounded
    product is exactly 560.0 (see [break_threshold_exact]), so comparing
    an integer with it is comparing with 560. *)
Definition break_threshold_float : PrimFloat.float :=
  PrimFloat.mul 800%float 0x1.6666666666666p-1%float.

Definition break_threshold : Z := 560.

(** ** Regular expressions

    The patterns of the script use literals, [.], [?], [*], [|] and
    groups.  [re.search] is only ever used for its truth value, so a
    pattern is modelled by its abstract syntax and searched with
    derivatives; [Empty] and [Eps] arise from derivation only. *)

Inductive regex : Type :=
| Empty : regex
| Eps : regex
| Chr : char -> regex
| Dot : regex
| Cat : regex -> regex -> regex
| Alt : regex -> regex -> regex
| Star : regex -> regex
| Opt : regex -> regex.

(** A literal word of a pattern. *)
Fixpoint lit_chars (cs : list char) : regex :=
  match cs with
  | [] => Eps
  | [c] => Chr c
  | c :: cs' => Cat (Chr c) (lit_chars cs')
  end.

Definition lit (s : string) : regex := lit_chars (str s).

Declare Scope regex_scope.
Delimit Scope regex_scope with re.
Bind Scope regex_scope with regex.
Infix "++" := Cat (right associativity, at level 60) : regex_scope.

(** [a|b|c] *)
Fixpoint alts (rs : list regex) : regex :=
  match rs with
  | [] => Empty
  | [r] => r
  | r :: rs' => Alt r (alts rs')
  end.

(** The concrete syntax of a pattern, to compare a syntax tree with the
    pattern literal of the script.  [lvl] is the context: 0 inside an
    alternative, 1 inside a concatenation, 2 under a postfix operator. *)
Fixpoint show_at (lvl : nat) (r : regex) : string :=
  let paren (need : bool) (s : string) : string :=
    if need then ("(" ++ s ++ ")")%string else s in
  match r with
  | Empty => "[]"%string
  | Eps => EmptyString
  | Chr c => String (ascii_of_N c) EmptyString
  | Dot => "."%string
  | Cat a b => paren (Nat.ltb 1 lvl) (show_at 1 a ++ show_at 1 b)%string
  | Alt a b => paren (Nat.ltb 0 lvl) (show_at 0 a ++ "|" ++ show_at 0 b)%string
  | Star a => (show_at 2 a ++ "*")%string
  | Opt a => (show_at 2 a ++ "?")%string
  end.

Definition show (r : regex) : string := show_at 0 r.

Fixpoint nullable (r : regex) : bool :=
  match r with
  | Empty | Chr _ | Dot => false
  | Eps | Star _ | Opt _ => true
  | Cat a b => nullable a && nullable b
  | Alt a b => nullable a || nullable b
  end.

Definition cat' (a b : regex) : regex :=
  match a, b with
  | Empty, _ => Empty
  | _, Empty => Empty
  | Eps, _ => b
  | _, _ => Cat a b
  end.

Definition alt' (a b : regex) : regex :=
  match a, b with
  | Empty, _ => b
  | _, Empty => a
  | _, _ => Alt a b
  end.

(** [.] matches every character but a newline (no DOTALL flag). *)
Fixpoint deriv (c : char) (r : regex) : regex :=
  match r with
  | Empty | Eps => Empty
  | Chr a => if N.eqb a c then Eps else Empty
  | Dot => if N.eqb c newline then Empty else Eps
  | Cat a b =>
      alt' (cat' (deriv c a) b) (if nullable a then deriv c b else Empty)
  | Alt a b => alt' (deriv c a) (deriv c b)
  | Star a => cat' (deriv c a) (Star a)
  | Opt a => deriv c a
  end.

(** [re.match(r, s)] as a truth value: some prefix of [s] matches. *)
Fixpoint re_match (r : regex) (s : pystr) : bool :=
  nullable r ||
  match s with
  | [] => false
  | c :: s' => re_match (deriv c r) s'
  end.

(** [re.search(r, s)] as a truth value: a match starts somewhere. *)
Fixpoint re_search (r : regex) (s : pystr) : bool :=
  re_match r s ||
  match s with
  | [] => false
  | _ :: s' => re_search r s'
  end.

(** The language of a pattern. *)
Inductive matches : regex -> pystr -> Prop :=
| M_eps : matches Eps []
| M_chr c : matches (Chr c) [c]
| M_dot c : c <> newline -> matches Dot [c]
| M_cat a b s t : matches a s -> matches b t -> matches (Cat a b) (s ++ t)
| M_alt_l a b s : matches a s -> matches (Alt a b) s
| M_alt_r a b s : matches b s -> matches (Alt a b) s
| M_star_nil a : matches (Star a) []
| M_star_app a s t :
    matches a s -> matches (Star a) t -> matches (Star a) (s ++ t)
| M_opt_none a : matches (Opt a) []
| M_opt_some a s : matches a s -> matches (Opt a) s.

(** ** The classifier patterns, in the order of the cascade *)

Definition pat_attendance : regex :=
  alts [ lit "check" ++ Opt Dot ++ lit "in";
         lit "attendance";
         lit "qr" ++ Opt Dot ++ alts [lit "code"; lit "scan"] ]%re.

Definition pat_children : regex :=
  alts [ lit "register" ++ Star Dot ++ lit "child";
         lit "add" ++ Star Dot ++ lit "child";
         lit "child" ++ Star Dot ++ lit "record";
         lit "formal" ++ Opt Dot ++ lit "id" ]%re.

Definition pat_register_add : regex := alts [lit "register"; lit "add"].

Definition pat_guardians : regex :=
  alts [lit "guardian"; lit "parent"; lit "emergency"].

Definition pat_reports : regex :=
  alts [lit "report"; lit "analytic"; lit "dashboard"; lit "statistic"].

Definition pat_staff : regex :=
  alts [ lit "staff" ++ Star Dot ++ lit "management";
         lit "volunteer" ++ Star Dot ++ lit "assign";
         lit "access" ++ Star Dot ++ lit "level" ]%re.

Definition pat_email : regex :=
  alts [ lit "email" ++ Star Dot ++ lit "template";
         lit "send" ++ Star Dot ++ lit "email";
         lit "smtp" ]%re.

Definition pat_settings : regex :=
  alts [ lit "settings";
         lit "configuration";
         lit "api" ++ Star Dot ++ lit "key";
         lit "deployment" ]%re.

Definition pat_navigation : regex :=
  alts [lit "navigation"; lit "menu"; lit "button"; lit "sidebar"].

Definition pat_troubleshooting : regex :=
  alts [lit "error"; lit "troubleshoot"; lit "fix"; lit "debug"].

Definition pat_overview : regex :=
  alts [ lit "introduction";
         lit "overview";
         lit "getting" ++ Star Dot ++ lit "started" ]%re.

(** ** Data model *)

Module Page.
Record t : Type := mk { page_num : Z; text : pystr }.
End Page.

(** The dictionary returned by [detect_metadata]. *)
Module Metadata.
Record t : Type :=
  mk { topic : string; task : string; role_min : Z; page : Z }.
End Metadata.

(** The dictionary [{'id': ..., 'text': ..., **metadata}]. *)
Module Chunk.
Record t : Type :=
  mk { id : string; text : pystr;
       topic : string; task : string; role_min : Z; page : Z }.
End Chunk.

(** [str.lower] follows the Unicode case tables, which are not part of
    the script; the program is parametric in it. *)
Class PyText : Type := { str_lower : pystr -> pystr }.

(** [str.lower] on ASCII text, to run the program on ASCII inputs. *)
Definition ascii_lower (s : pystr) : pystr :=
  map (fun c => if ((65 <=? c) && (c <=? 90))%N then (c + 32)%N else c) s.

Definition ascii_text : PyText := {| str_lower := ascii_lower |}.

Section Program.

Context {py : PyText}.

(** ** Classifier: [detect_metadata] *)

Definition detect_metadata (text : pystr) (page_num : Z) : Metadata.t :=
  let text_lower := str_lower text in
  let '(topic, task, role_min) := (
    if re_search pat_attendance text_lower then
      ("attendance", "procedure", 1)
    else if re_search pat_children text_lower then
      ("children",
       if re_search pat_register_add text_lower
       then "procedure" else "navigation",
       3)
    else if re_search pat_guardians text_lower then
      ("guardians", "navigation", 3)
    else if re_search pat_reports text_lower then
      ("reports", "navigation", 5)
    else if re_search pat_staff text_lower then
      ("staff_management", "navigation", 5)
    else if re_search pat_email text_lower then
      ("email", "procedure", 5)
    else if re_search pat_settings text_lower then
      ("settings", "navigation", 10)
    else if re_search pat_navigation text_lower then
      ("navigation", "navigation", 1)
    else if re_search pat_troubleshooting text_lower then
      ("troubleshooting", "troubleshooting", 1)
    else if re_search pat_overview text_lower then
      ("overview", "reference", 1)
    else
      ("general", "reference", 1))%string in
  Metadata.mk topic task role_min page_num.

Definition triple_of (m : Metadata.t) : string * string * Z :=
  (Metadata.topic m, Metadata.task m, Metadata.role_min m).

(** The cascade as the design document words it: an ordered table of
    (pattern test, result) pairs, the first matching rule wins, and a
    default applies when none matches. *)
Record rule : Type :=
  { applies : pystr -> bool; result : pystr -> string * string * Z }.

Definition rule_table : list rule :=
  [ {| applies := re_search pat_attendance;
       result := fun _ => ("attendance", "procedure", 1) |};
    {| applies := re_search pat_children;
       result := fun t =>
         ("children",
          if re_search pat_register_add t then "procedure" else "navigation",
          3) |};
    {| applies := re_search pat_guardians;
       result := fun _ => ("guardians", "navigation", 3) |};
    {| applies := re_search pat_reports;
       result := fun _ => ("reports", "navigation", 5) |};
    {| applies := re_search pat_staff;
       result := fun _ => ("staff_management", "navigation", 5) |};
    {| applies := re_search pat_email;
       result := fun _ => ("email", "procedure", 5) |};
    {| applies := re_search pat_settings;
       result := fun _ => ("settings", "navigation", 10) |};
    {| applies := re_search pat_navigation;
       result := fun _ => ("navigation", "navigation", 1) |};
    {| applies := re_search pat_troubleshooting;
       result := fun _ => ("troubleshooting", "troubleshooting", 1) |};
    {| applies := re_search pat_overview;
       result := fun _ => ("overview", "reference", 1) |} ]%string.

Definition default_result : string * string * Z :=
  ("general", "reference", 1)%string.

Fixpoint first_match (rules : list rule) (t : pystr) : string * string * Z :=
  match rules with
  | [] => default_result
  | r :: rules' => if applies r t then result r t else first_match rules' t
  end.

Definition classify_cascade (text : pystr) : string * string * Z :=
  first_match rule_table (str_lower text).

(** ** Chunker: [create_chunks] *)

(** Lines 149-162: the window taken at cursor [start], trimmed. *)
Definition window (text : pystr) (start : Z) : pystr :=
  let end_ := Z.min (start + chunk_size) (len text) in
  let chunk_text := slice text start end_ in
  let chunk_text :=
    if end_ <? len text then
      let last_period := rfind period chunk_text in
      let last_newline := rfind newline chunk_text in
      let break_point := Z.max last_period last_newline in
      if break_threshold <? break_point
      then slice text start (start + break_point + 1)
      else chunk_text
    else chunk_text in
  strip chunk_text.

(** [f'chunk-{chunk_counter}'] *)
Definition chunk_id (counter : nat) : string :=
  ("chunk-" ++ format_int counter)%string.

(** The counter value an id was formatted from. *)
Definition chunk_number (id : string) : option nat :=
  match id with
  | String "c" (String "h" (String "u" (String "n" (String "k"
      (String "-" digits))))) => parse_int digits
  | _ => None
  end.

(** Lines 165-171: the chunk built from a window. *)
Definition new_chunk (counter : nat) (chunk_text : pystr) (page_num : Z)
  : Chunk.t :=
  let metadata := detect_metadata chunk_text page_num in
  Chunk.mk (chunk_id counter) chunk_text
           (Metadata.topic metadata) (Metadata.task metadata)
           (Metadata.role_min metadata) (Metadata.page metadata).

(** Control points of the two nested loops. *)
Inductive position : Type :=
| AtFor (rest : list Page.t)
    (* head of [for idx, page in enumerate(pages)] *)
| AtWhile (page : Page.t) (start : Z) (rest : list Page.t).
    (* head of [while start < len(text)] *)

(** [chunks] is the list under construction, [chunk_counter] the module
    global. *)
Record config : Type :=
  { pos : position; chunks : list Chunk.t; chunk_counter : nat }.

(** One transition: entering a page, one iteration of the while loop,
    leaving a page; [None] when the for loop is exhausted and the
    function returns [chunks]. *)
Definition step (c : config) : option config :=
  match pos c with
  | AtFor [] => None
  | AtFor (page :: rest) =>
      Some {| pos := AtWhile page 0 rest;
              chunks := chunks c; chunk_counter := chunk_counter c |}
  | AtWhile page start rest =>
      let text := Page.text page in
      if start <? len text then
        let chunk_text := window text start in
        let start' := start + (len chunk_text - chunk_overlap) in
        if 100 <? len chunk_text then
          Some {| pos := AtWhile page start' rest;
                  chunks := chunks c
                    ++ [new_chunk (chunk_counter c) chunk_text
                                  (Page.page_num page)];
                  chunk_counter := S (chunk_counter c) |}
        else
          Some {| pos := AtWhile page start' rest;
                  chunks := chunks c; chunk_counter := chunk_counter c |}
      else
        Some {| pos := AtFor rest;
                chunks := chunks c; chunk_counter := chunk_counter c |}
  end.

(** The configuration after [n] transitions (a returned configuration
    stays put). *)
Fixpoint steps (n : nat) (c : config) : config :=
  match n with
  | O => c
  | S k => match step c with
           | None => c
           | Some c' => steps k c'
           end
  end.

(** Running to completion: [Some] of the returned list and the final
    counter when the function returns within [fuel] transitions. *)
Fixpoint run (fuel : nat) (c : config) : option (list Chunk.t * nat) :=
  match step c with
  | None => Some (chunks c, chunk_counter c)
  | Some c' => match fuel with
               | O => None
               | S k => run k c'
               end
  end.

(** Entry of [create_chunks(pages)] with the global counter at
    [counter]. *)
Definition entry (pages : list Page.t) (counter : nat) : config :=
  {| pos := AtFor pages; chunks := []; chunk_counter := counter |}.

Definition create_chunks (fuel : nat) (pages : list Page.t) (counter : nat)
  : option (list Chunk.t * nat) :=
  run fuel (entry pages counter).

(** The window step as the design document words it: the tentative
    window, shrunk to end right after the break character when that
    character lies beyond 70 percent of the chunk size. *)
Definition spec_window (text : pystr) (start : Z) : pystr :=
  let tentative := slice text start (Z.min (start + chunk_size) (len text)) in
  let reaches_end := len text <=? Z.min (start + chunk_size) (len text) in
  let break_point := Z.max (rfind period tentative) (rfind newline tentative) in
  let shrunk :=
    if negb reaches_end && (7 * chunk_size <? 10 * break_point)
    then firstn (Z.to_nat (break_point + 1)) tentative
    else tentative in
  strip shrunk.

Definition spec_advance (text : pystr) (start : Z) : Z :=
  start + (len (spec_window text start) - chunk_overlap).

(** Predicates on chunks and configurations used to state the
    properties of a run. *)
Definition trimmed_long (ch : Chunk.t) : Prop :=
  100 < len (Chunk.text ch) /\ strip (Chunk.text ch) = Chunk.text ch.

Definition run_invariant (counter0 : nat) (c : config) : Prop :=
  chunk_counter c = (counter0 + List.length (chunks c))%nat /\
  map Chunk.id (chunks c)
    = map chunk_id (seq counter0 (List.length (chunks c))) /\
  Forall trimmed_long (chunks c).

Definition short_page (p : Page.t) : Prop := len (strip (Page.text p)) <= 100.

Definition only_short_pages (c : config) : Prop :=
  match pos c with
  | AtFor rest => Forall short_page rest
  | AtWhile page _ rest => short_page page /\ Forall short_page rest
  end.

End Program.

(** ** Effects: exceptions, external services, standard output

    The stages after the chunker call services outside the script.  A
    computation runs on a state holding the state of these services and
    what was printed; it returns a value, raises an exception, of which
    only [str(e)] is kept, or does not return. *)

Inductive outcome (A : Type) : Type :=
| Ok (a : A)
| Raise (e : string)
| NoReturn.

Arguments Ok {A} a.
Arguments Raise {A} e.
Arguments NoReturn {A}.

Record state (W : Type) : Type := { world : W; stdout : list string }.

Arguments world {W} s.
Arguments stdout {W} s.

Definition M (W A : Type) : Type := state W -> outcome A * state W.

Definition ret {W A} (a : A) : M W A := fun st => (Ok a, st).

Definition bind {W A B} (m : M W A) (k : A -> M W B) : M W B :=
  fun st =>
    match m st with
    | (Ok a, st') => k a st'
    | (Raise e, st') => (Raise e, st')
    | (NoReturn, st') => (NoReturn, st')
    end.

Definition raise {W A} (e : string) : M W A := fun st => (Raise e, st).

(** [try: body except Exception as e: handler(e)] *)
Definition try_except {W A} (body : M W A) (handler : string -> M W A)
  : M W A :=
  fun st =>
    match body st with
    | (Raise e, st') => handler e st'
    | r => r
    end.

Definition print {W} (line : string) : M W unit :=
  fun st => (Ok tt, {| world := world st; stdout := stdout st ++ [line] |}).

Declare Scope monad_scope.
Delimit Scope monad_scope with monad.
Notation "x <- m ;; k" := (bind m (fun x => k))
  (at level 61, m at next level, right associativity) : monad_scope.
Notation "m ;; k" := (bind m (fun _ => k))
  (at level 61, right associativity) : monad_scope.

(** [needle in hay] *)
Fixpoint contains (needle hay : string) : bool :=
  String.prefix needle hay ||
  match hay with
  | EmptyString => false
  | String _ hay' => contains needle hay'
  end.

(** [range(start, stop, step)] for a positive step. *)
Definition py_range (start stop step : Z) : list Z :=
  map (fun k => start + Z.of_nat k * step)
      (seq 0 (Z.to_nat ((stop - start + step - 1) / step))).

(** A chunk with its embedding: [{**chunk, 'embedding': v}]. *)
Module Embedded.
Record t (vec : Type) : Type := mk { chunk : Chunk.t; embedding : vec }.
Arguments mk {vec} chunk embedding.
Arguments chunk {vec} t.
Arguments embedding {vec} t.
Definition id {vec} (e : t vec) : string := Chunk.id (chunk e).
End Embedded.

(** A record sent to the index. *)
Module IndexRecord.
Record meta : Type :=
  mk_meta { text : pystr; page : Z; topic : string; task : string;
            role_min : Z; source : string; type : string }.
Record t (vec : Type) : Type := mk { id : string; values : vec; metadata : meta }.
Arguments mk {vec} id values metadata.
Arguments id {vec} t.
Arguments values {vec} t.
Arguments metadata {vec} t.
End IndexRecord.

(** The calls that leave the script: each returns or raises, and may
    change the state of the services.  [pdf_read] opens the file and
    extracts the text of every page; [sleep] takes milliseconds;
    [getenv] only reads. *)
Inductive response (A : Type) : Type :=
| Returns (a : A)
| Raises (e : string).

Arguments Returns {A} a.
Arguments Raises {A} e.

Record services (W vec : Type) : Type :=
  { getenv : string -> W -> option string;
    sleep : Z -> W -> W;
    pdf_read : string -> W -> response (list pystr) * W;
    embeddings_create : list pystr -> W -> response (list vec) * W;
    pinecone_Index : string -> W -> response unit * W;
    index_delete_all : string -> W -> response unit * W;
    index_upsert :
      string -> list (IndexRecord.t vec) -> W -> response unit * W }.

Arguments getenv {W vec} s _ _.
Arguments sleep {W vec} s _ _.
Arguments pdf_read {W vec} s _ _.
Arguments embeddings_create {W vec} s _ _.
Arguments pinecone_Index {W vec} s _ _.
Arguments index_delete_all {W vec} s _ _.
Arguments index_upsert {W vec} s _ _ _.

(** A service call inside a computation. *)
Definition call {W A} (op : W -> response A * W) : M W A :=
  fun st =>
    match op (world st) with
    | (Returns a, w) => (Ok a, {| world := w; stdout := stdout st |})
    | (Raises e, w) => (Raise e, {| world := w; stdout := stdout st |})
    end.

Definition read {W A} (f : W -> A) : M W A :=
  fun st => (Ok (f (world st)), st).

Definition update {W} (f : W -> W) : M W unit :=
  fun st => (Ok tt, {| world := f (world st); stdout := stdout st |}).

Section Stages.

Context {py : PyText}.
Variables W vec : Type.
Variable svc : services W vec.

Local Open Scope monad_scope.

(** *** [extract_text_from_pdf]: pages with text, numbered from 1 *)

Fixpoint pages_with_text (page_num : Z) (texts : list pystr) : list Page.t :=
  match texts with
  | [] => []
  | text :: texts' =>
      match strip text with
      | [] => pages_with_text (page_num + 1) texts'
      | _ => Page.mk (page_num + 1) text
               :: pages_with_text (page_num + 1) texts'
      end
  end.

Definition extract_text_from_pdf (path : string) : M W (list Page.t) :=
  texts <- call (pdf_read svc path) ;;
  ret (pages_with_text 0 texts).

(** *** Embedder: [generate_embeddings] *)

(** [for j, embedding_data in enumerate(response.data)]: the j-th
    vector goes with [batch[j]], which must exist. *)
Fixpoint attach (batch : list Chunk.t) (data : list vec)
  : outcome (list (Embedded.t vec)) :=
  match data with
  | [] => Ok []
  | v :: data' =>
      match batch with
      | [] => Raise "list index out of range"
      | c :: batch' =>
          match attach batch' data' with
          | Ok es => Ok (Embedded.mk c v :: es)
          | Raise e => Raise e
          | NoReturn => NoReturn
          end
      end
  end.

Fixpoint embed_batches (starts : list Z) (chunks : list Chunk.t)
    (embeddings : list (Embedded.t vec)) : M W (list (Embedded.t vec)) :=
  match starts with
  | [] => ret embeddings
  | i :: starts' =>
      let batch := slice chunks i (i + embedding_batch_size) in
      let texts := map Chunk.text batch in
      response <- call (embeddings_create svc texts) ;;
      new <- (fun st => (attach batch response, st)) ;;
      (if i + embedding_batch_size <? len chunks
       then update (sleep svc 200) else ret tt) ;;
      embed_batches starts' chunks (embeddings ++ new)
  end.

Definition generate_embeddings (chunks : list Chunk.t)
  : M W (list (Embedded.t vec)) :=
  embed_batches (py_range 0 (len chunks) embedding_batch_size) chunks [].

(** The embedding service answers every request with one vector per
    text. *)
Definition one_vector_per_text : Prop :=
  forall texts w, exists vs w',
    embeddings_create svc texts w = (Returns vs, w') /\
    List.length vs = List.length texts.

(** *** Indexer: [upload_to_pinecone] and [delete_all_vectors] *)

Definition to_vector (item : Embedded.t vec) : IndexRecord.t vec :=
  let c := Embedded.chunk item in
  IndexRecord.mk (Chunk.id c) (Embedded.embedding item)
    (IndexRecord.mk_meta (Chunk.text c) (Chunk.page c) (Chunk.topic c)
       (Chunk.task c) (Chunk.role_min c)
       "NextGen-User Manual.pdf" "documentation").

Fixpoint upsert_batches (index_name : string) (starts : list Z)
    (vectors : list (IndexRecord.t vec)) : M W unit :=
  match starts with
  | [] => ret tt
  | i :: starts' =>
      let batch := slice vectors i (i + 100) in
      call (index_upsert svc index_name batch) ;;
      update (sleep svc 100) ;;
      upsert_batches index_name starts' vectors
  end.

Definition upload_to_pinecone (embeddings : list (Embedded.t vec))
    (index_name : string) : M W unit :=
  call (pinecone_Index svc index_name) ;;
  let vectors := map to_vector embeddings in
  upsert_batches index_name (py_range 0 (len vectors) 100) vectors.

Definition delete_all_vectors (index_name : string) : M W unit :=
  print "🗑️  Clearing Pinecone index..." ;;
  try_except
    (call (pinecone_Index svc index_name) ;;
     call (index_delete_all svc index_name) ;;
     print "✅ Index cleared" ;;
     update (sleep svc 3000))
    (fun e =>
       if contains "404" e then
         print "ℹ️  Index already empty"
       else
         print ("⚠️  Could not delete: " ++ e) ;;
         print "✅ Continuing anyway (will overwrite existing vectors)") ;;
  print EmptyString.

(** What the exception handler of [delete_all_vectors] prints for an
    exception whose text is [e]. *)
Definition clear_report (e : string) : list string :=
  if contains "404" e then
    ["ℹ️  Index already empty"%string]
  else
    ["⚠️  Could not delete: " ++ e;
     "✅ Continuing anyway (will overwrite existing vectors)"]%string.

(** *** The driver: [main] *)

Definition falsy (v : option string) : bool :=
  match v with
  | None | Some EmptyString => true
  | Some _ => false
  end.

(** [create_chunks] inside the driver: the module global starts at 0;
    no returned list within [fuel] transitions is no return. *)
Definition chunk_stage (fuel : nat) (pages : list Page.t)
  : M W (list Chunk.t) :=
  fun st =>
    match create_chunks fuel pages 0 with
    | Some (chunks, _) => (Ok chunks, st)
    | None => (NoReturn, st)
    end.

(** Steps 2 to 5 of [main]: read, chunk, embed, upload. *)
Definition stages_after_clear (fuel : nat) (index_name : string) : M W unit :=
  pages <- extract_text_from_pdf pdf_path ;;
  chunks <- chunk_stage fuel pages ;;
  embeddings <- generate_embeddings chunks ;;
  upload_to_pinecone embeddings index_name.

(** The body of the [try] block of [main]. *)
Definition main_body (fuel : nat) : M W unit :=
  openai_key <- read (getenv svc "OPENAI_API_KEY") ;;
  pinecone_key <- read (getenv svc "PINECONE_API_KEY") ;;
  if falsy openai_key || falsy pinecone_key then
    raise "Missing API keys in environment variables"
  else
    index_name <- read (getenv svc "PINECONE_INDEX_NAME") ;;
    match index_name with
    | None | Some EmptyString =>
        raise "Missing PINECONE_INDEX_NAME in environment variables"
    | Some index_name =>
        delete_all_vectors index_name ;;
        stages_after_clear fuel index_name
    end.

(** The environment passes the validation at the head of [main]. *)
Definition configured (w : W) (index_name : string) : Prop :=
  falsy (getenv svc "OPENAI_API_KEY" w) = false /\
  falsy (getenv svc "PINECONE_API_KEY" w) = false /\
  getenv svc "PINECONE_INDEX_NAME" w = Some index_name /\
  index_name <> EmptyString.

(** How the process ends. *)
Inductive ending : Type :=
| Returned
| Exit (status : Z)
| Hangs.

(** [except Exception as error: print(...); traceback; exit(1)] *)
Definition main (fuel : nat) (st : state W) : ending * state W :=
  match main_body fuel st with
  | (Ok _, st') => (Returned, st')
  | (Raise e, st') =>
      (Exit 1, snd (print (String "010" ("❌ ERROR: " ++ e)) st'))
  | (NoReturn, st') => (Hangs, st')
  end.

End Stages.

Arguments extract_text_from_pdf {W vec} svc path _.
Arguments attach {vec} batch data.
Arguments embed_batches {W vec} svc starts chunks embeddings _.
Arguments generate_embeddings {W vec} svc chunks _.
Arguments to_vector {vec} item.
Arguments upsert_batches {W vec} svc index_name starts vectors _.
Arguments upload_to_pinecone {W vec} svc embeddings index_name _.
Arguments delete_all_vectors {W vec} svc index_name _.
Arguments chunk_stage {py W} fuel pages _.
Arguments stages_after_clear {py W vec} svc fuel index_name _.
Arguments main_body {py W vec} svc fuel _.
Arguments main {py W vec} svc fuel st.
Arguments configured {W vec} svc w index_name.
Arguments one_vector_per_text {W vec} svc.

(** ** Concrete pages *)

(** 120 letters: shorter than the overlap. *)
Definition stall_text : pystr := repeat_str (str "a") 120.

(** ["A." * 50 + "\n" + "B." * 50] *)
Definition ab_text : pystr :=
  repeat_str (str "A.") 50 ++ [newline] ++ repeat_str (str "B.") 50.

(** 150 characters of prose in which no classifier pattern occurs. *)
Definition prose_text : pystr :=
  str ("The quick brown fox jumps over the lazy dog while the sun slowly " ++
       "sets behind the distant hills and a gentle breeze carries the " ++
       "scent of pine and rain.")%string.

(** 700 blanks, a period, 299 blanks. *)
Definition blank_text : pystr :=
  repeat_str (str " ") 700 ++ [period] ++ repeat_str (str " ") 299.

(** ** Concrete services

    An environment with all variables set, an index that does not
    exist, a document that cannot be opened, and an embedding service
    returning the length of every text as its vector. *)
Definition offline_services : services unit (list Z) :=
  {| getenv := fun _ _ => Some "set"%string;
     sleep := fun _ w => w;
     pdf_read := fun _ w => (Raises "No such file or directory", w);
     embeddings_create := fun texts w => (Returns (map (fun t => [len t]) texts), w);
     pinecone_Index := fun _ w => (Raises "(404) Reason: Not Found", w);
     index_delete_all := fun _ w => (Returns tt, w);
     index_upsert := fun _ _ w => (Returns tt, w) |}.

(** The same with an index whose deletion fails, and with an empty
    environment. *)
Definition failing_delete_services : services unit (list Z) :=
  {| getenv := getenv offline_services;
     sleep := sleep offline_services;
     pdf_read := pdf_read offline_services;
     embeddings_create := embeddings_create offline_services;
     pinecone_Index := fun _ w => (Returns tt, w);
     index_delete_all :=
       fun _ w => (Raises "(500) Reason: Internal Server Error", w);
     index_upsert := index_upsert offline_services |}.

Definition unset_services : services unit (list Z) :=
  {| getenv := fun _ _ => None;
     sleep := sleep offline_services;
     pdf_read := pdf_read offline_services;
     embeddings_create := embeddings_create offline_services;
     pinecone_Index := pinecone_Index offline_services;
     index_delete_all := index_delete_all offline_services;
     index_upsert := index_upsert offline_services |}.

Definition initial_state : state unit := {| world := tt; stdout := [] |}.

Definition sample_chunks : list Chunk.t :=
  [ Chunk.mk "chunk-0" (str "first") "general" "reference" 1 1;
    Chunk.mk "chunk-1" (str "second") "reports" "navigation" 5 2 ]%string.

(** ** Further predicates on chunks and texts *)

Section Provenance.

Context {py : PyText}.

(** The chunk was cut from one of the pages: it carries that page's
    number, its text is a contiguous piece of the page's text of at most
    [chunk_size] characters, and its metadata is the classification of
    its own text. *)
Definition taken_from (pages : list Page.t) (ch : Chunk.t) : Prop :=
  exists p,
    In p pages /\
    Chunk.page ch = Page.page_num p /\
    (exists a b, Page.text p = a ++ Chunk.text ch ++ b) /\
    (Chunk.topic ch, Chunk.task ch, Chunk.role_min ch)
      = triple_of (detect_metadata (Chunk.text ch) (Page.page_num p)) /\
    len (Chunk.text ch) <= chunk_size.

(** The pages a configuration is working on are pages of the input. *)
Definition stays_within (pages : list Page.t) (c : config) : Prop :=
  match pos c with
  | AtFor rest => incl rest pages
  | AtWhile page _ rest => In page pages /\ incl rest pages
  end.

End Provenance.

(** A text without whitespace and without a period: nothing to trim and
    nowhere to break. *)
Definition plain (text : pystr) : Prop :=
  Forall (fun c => is_space c = false /\ c <> period) text.

(** ** Batches and a recording double of the services *)

(** The batches cut by [for i in range(0, len(s), size): s[i:i + size]]. *)
Definition batches {A} (s : list A) (size : Z) : list (list A) :=
  map (fun i => slice s i (i + size)) (py_range 0 (len s) size).

(** Running [m] from [st] ends with the outcome [r] and leaves the
    services in the state [w]. *)
Definition results_in {W A} (m : M W A) (st : state W) (r : outcome A)
    (w : W) : Prop :=
  fst (m st) = r /\ world (snd (m st)) = w.

(** What the script asked of the services: the text lists sent for
    embedding, the record lists upserted, the pauses taken, in order. *)
Record recorder (vec : Type) : Type :=
  { requests : list (list pystr);
    upserts : list (list (IndexRecord.t vec));
    sleeps : list Z }.

Arguments requests {vec} r.
Arguments upserts {vec} r.
Arguments sleeps {vec} r.

(** Services that answer every call and record it; the vector of a text
    is [f] of the text. *)
Definition recording_services {vec} (f : pystr -> vec)
  : services (recorder vec) vec :=
  {| getenv := fun _ _ => None;
     sleep := fun ms w =>
       {| requests := requests w; upserts := upserts w;
          sleeps := sleeps w ++ [ms] |};
     pdf_read := fun _ w => (Returns [], w);
     embeddings_create := fun texts w =>
       (Returns (map f texts),
        {| requests := requests w ++ [texts]; upserts := upserts w;
           sleeps := sleeps w |});
     pinecone_Index := fun _ w => (Returns tt, w);
     index_delete_all := fun _ w => (Returns tt, w);
     index_upsert := fun _ batch w =>
       (Returns tt,
        {| requests := requests w; upserts := upserts w ++ [batch];
           sleeps := sleeps w |}) |}.

(** A chunk with the vector of its own text. *)
Definition with_vector {vec} (f : pystr -> vec) (c : Chunk.t)
  : Embedded.t vec :=
  Embedded.mk c (f (Chunk.text c)).

(** Recording services whose index refuses the upsert number [k]
    (counted from 0) with the exception [e]. *)
Definition refusing_services {vec} (k : nat) (e : string) (f : pystr -> vec)
  : services (recorder vec) vec :=
  {| getenv := getenv (recording_services f);
     sleep := sleep (recording_services f);
     pdf_read := pdf_read (recording_services f);
     embeddings_create := embeddings_create (recording_services f);
     pinecone_Index := pinecone_Index (recording_services f);
     index_delete_all := index_delete_all (recording_services f);
     index_upsert := fun name batch w =>
       if Nat.eqb (List.length (upserts w)) k
       then (Raises e, w)
       else index_upsert (recording_services f) name batch w |}.

(** ** Statistics: [print_metadata_stats]

    A dictionary is kept as the list of its items in insertion order,
    which is the order Python iterates and prints it in. *)

(** [d[k] = d.get(k, 0) + 1] *)
Fixpoint bump {K} (eqb : K -> K -> bool) (k : K) (d : list (K * nat))
  : list (K * nat) :=
  match d with
  | [] => [(k, 1%nat)]
  | (k', n) :: d' =>
      if eqb k' k then (k', S n) :: d' else (k', n) :: bump eqb k d'
  end.

(** [sorted(items, key=lambda x: x[1], reverse=True)]: a stable sort by
    non-increasing count. *)
Fixpoint insert_by_count {K} (x : K * nat) (l : list (K * nat))
  : list (K * nat) :=
  match l with
  | [] => [x]
  | y :: l' =>
      if (snd x <? snd y)%nat then y :: insert_by_count x l' else x :: l
  end.

Fixpoint sorted_by_count {K} (l : list (K * nat)) : list (K * nat) :=
  match l with
  | [] => []
  | x :: l' => insert_by_count x (sorted_by_count l')
  end.

(** [sorted(role_counts.items())]: tuples in increasing order. *)
Definition item_ltb (x y : Z * nat) : bool :=
  (fst x <? fst y) || ((fst x =? fst y) && (snd x <? snd y)%nat).

Fixpoint insert_item (x : Z * nat) (l : list (Z * nat)) : list (Z * nat) :=
  match l with
  | [] => [x]
  | y :: l' => if item_ltb y x then y :: insert_item x l' else x :: l
  end.

Fixpoint sorted_items (l : list (Z * nat)) : list (Z * nat) :=
  match l with
  | [] => []
  | x :: l' => insert_item x (sorted_items l')
  end.

(** The three dictionaries after the loop over the chunks. *)
Definition count_metadata (chunks : list Chunk.t)
  : list (string * nat) * list (string * nat) * list (Z * nat) :=
  fold_left
    (fun '(topic_counts, task_counts, role_counts) chunk =>
       (bump String.eqb (Chunk.topic chunk) topic_counts,
        bump String.eqb (Chunk.task chunk) task_counts,
        bump Z.eqb (Chunk.role_min chunk) role_counts))
    chunks ([], [], []).

Section Statistics.

(** [repr] of a dictionary, as the f-strings call it: Python's
    rendering, not part of the script. *)
Variable repr_counts : list (string * nat) -> string.
Variable repr_roles : list (Z * nat) -> string.

Definition print_metadata_stats {W} (chunks : list Chunk.t) : M W unit :=
  let '(topic_counts, task_counts, role_counts) := count_metadata chunks in
  (print "📊 Metadata Distribution:" ;;
   print ("  Topics: " ++ repr_counts (sorted_by_count topic_counts)) ;;
   print ("  Tasks: " ++ repr_counts task_counts) ;;
   print ("  Role Minimums: " ++ repr_roles (sorted_items role_counts)) ;;
   print EmptyString)%monad.

End Statistics.

(** The sum of the counts of a dictionary. *)
Definition total {K} (d : list (K * nat)) : nat :=
  fold_right (fun item acc => (snd item + acc)%nat) O d.

(** [d.get(k, 0)] *)
Fixpoint count_for {K} (eqb : K -> K -> bool) (k : K) (d : list (K * nat))
  : nat :=
  match d with
  | [] => O
  | (k', n) :: d' => if eqb k' k then n else count_for eqb k d'
  end.

(** The pairs a classification can take, as the branches of
    [detect_metadata] assign them. *)
Definition topic_roles : list (string * Z) :=
  [ ("general", 1); ("attendance", 1); ("children", 3); ("guardians", 3);
    ("reports", 5); ("staff_management", 5); ("email", 5); ("settings", 10);
    ("navigation", 1); ("troubleshooting", 1); ("overview", 1) ]%string.

Definition topic_tasks : list (string * string) :=
  [ ("general", "reference"); ("attendance", "procedure");
    ("children", "procedure"); ("children", "navigation");
    ("guardians", "navigation"); ("reports", "navigation");
    ("staff_management", "navigation"); ("email", "procedure");
    ("settings", "navigation"); ("navigation", "navigation");
    ("troubleshooting", "troubleshooting"); ("overview", "reference") ]%string.

(** Recording services whose embedding service refuses the request
    number [k] (counted from 0) with the exception [e]. *)
Definition refusing_embedder {vec} (k : nat) (e : string) (f : pystr -> vec)
  : services (recorder vec) vec :=
  {| getenv := getenv (recording_services f);
     sleep := sleep (recording_services f);
     pdf_read := pdf_read (recording_services f);
     embeddings_create := fun texts w =>
       if Nat.eqb (List.length (requests w)) k
       then (Raises e, w)
       else embeddings_create (recording_services f) texts w;
     pinecone_Index := pinecone_Index (recording_services f);
     index_delete_all := index_delete_all (recording_services f);
     index_upsert := index_upsert (recording_services f) |}.

(** ** Further concrete inputs *)

(** 600 letters, a period, 400 letters. *)
Definition sentence_text : pystr :=
  repeat_str (str "a") 600 ++ [period] ++ repeat_str (str "b") 400.

(** 2000 letters. *)
Definition letters_text : pystr := repeat_str (str "x") 2000.

(** A working environment whose document has the given page texts. *)
Definition local_services (texts : list pystr) : services unit (list Z) :=
  {| getenv := fun _ _ => Some "set"%string;
     sleep := fun _ w => w;
     pdf_read := fun _ w => (Returns texts, w);
     embeddings_create :=
       fun texts w => (Returns (map (fun t => [len t]) texts), w);
     pinecone_Index := fun _ w => (Returns tt, w);
     index_delete_all := fun _ w => (Returns tt, w);
     index_upsert := fun _ _ w => (Returns tt, w) |}.

(** An embedding service that answers with one vector only. *)
Definition truncating_services : services unit (list Z) :=
  {| getenv := getenv (local_services []);
     sleep := sleep (local_services []);
     pdf_read := pdf_read (local_services []);
     embeddings_create :=
       fun texts w => (Returns (firstn 1 (map (fun t => [len t]) texts)), w);
     pinecone_Index := pinecone_Index (local_services []);
     index_delete_all := index_delete_all (local_services []);
     index_upsert := index_upsert (local_services []) |}.

Definition empty_recorder : state (recorder (list Z)) :=
  {| world := {| requests := []; upserts := []; sleeps := [] |};
     stdout := [] |}.

(** A working environment that records the calls made to it and whose
    document has the given page texts. *)
Definition document_services (texts : list pystr)
  : services (recorder (list Z)) (list Z) :=
  let rec := recording_services (fun t => [len t]) in
  {| getenv := fun _ _ => Some "set"%string;
     sleep := sleep rec;
     pdf_read := fun _ w => (Returns texts, w);
     embeddings_create := embeddings_create rec;
     pinecone_Index := pinecone_Index rec;
     index_delete_all := index_delete_all rec;
     index_upsert := index_upsert rec |}.

(** 150 embedded chunks. *)
Definition many_embeddings : list (Embedded.t (list Z)) :=
  map (fun k =>
         Embedded.mk
           (Chunk.mk (chunk_id k) (str "text") "general" "reference" 1 1)
           [Z.of_nat k])
      (seq 0 150).

(** Membership in a list written out. *)
Ltac pick_member :=
  cbn [In]; repeat (first [ left; reflexivity | right ]).

(* ===================================================================== *)
(** * Part II: properties                                                 *)
(* ===================================================================== *)

(** ** Sanity checks of the string primitives *)

Example slice_ex1 : slice (str "abcdef") 1 4 = str "bcd".
Proof. reflexivity. Qed.
Example slice_ex2 : slice (str "abcdef") (-2) 100 = str "ef".
Proof. reflexivity. Qed.
Example slice_ex3 : slice (str "abcdef") (-100) (-4) = str "ab".
Proof. reflexivity. Qed.
Example slice_ex4 : slice (str "abcdef") 4 2 = [].
Proof. reflexivity. Qed.
Example rfind_ex1 : rfind period (str "a.b.c") = 3.
Proof. reflexivity. Qed.
Example rfind_ex2 : rfind newline (str "a.b.c") = -1.
Proof. reflexivity. Qed.
Example strip_ex1 : strip (str "  a b  ") = str "a b".
Proof. reflexivity. Qed.
Example format_ex : format_int 0 = "0"%string /\ format_int 120 = "120"%string.
Proof. split; reflexivity. Qed.
Example break_threshold_exact :
  PrimFloat.eqb break_threshold_float 560%float = true.
Proof. vm_compute. reflexivity. Qed.

(** The syntax trees print back to the pattern literals of the script. *)
Example show_pats :
  show pat_attendance = "check.?in|attendance|qr.?(code|scan)"%string /\
  show pat_children
    = "register.*child|add.*child|child.*record|formal.?id"%string /\
  show pat_register_add = "register|add"%string /\
  show pat_guardians = "guardian|parent|emergency"%string /\
  show pat_reports = "report|analytic|dashboard|statistic"%string /\
  show pat_staff
    = "staff.*management|volunteer.*assign|access.*level"%string /\
  show pat_email = "email.*template|send.*email|smtp"%string /\
  show pat_settings = "settings|configuration|api.*key|deployment"%string /\
  show pat_navigation = "navigation|menu|button|sidebar"%string /\
  show pat_troubleshooting = "error|troubleshoot|fix|debug"%string /\
  show pat_overview = "introduction|overview|getting.*started"%string.
Proof. repeat split; reflexivity. Qed.

(** ** The derivative matcher decides the language of a pattern *)

Lemma matches_Empty s : ~ matches Empty s.
Proof. intros H; inversion H. Qed.

Lemma matches_Eps s : matches Eps s -> s = [].
Proof. intros H; inversion H; reflexivity. Qed.

Lemma nullable_matches r : nullable r = true <-> matches r [].
Proof.
  induction r; simpl.
  - split; [discriminate | intros H; inversion H].
  - split; [constructor | reflexivity].
  - split; [discriminate | intros H; inversion H].
  - split; [discriminate | intros H; inversion H].
  - rewrite andb_true_iff, IHr1, IHr2. split.
    + intros [H1 H2]. change (@nil char) with (@nil char ++ []). now constructor.
    + intros H. inversion H as [ | | |a b s t Hs Ht Hab Hst| | | | | | ]; subst.
      apply app_eq_nil in Hst as [-> ->]. now split.
  - rewrite orb_true_iff, IHr1, IHr2. split.
    + intros [H|H]; [now apply M_alt_l | now apply M_alt_r].
    + intros H; inversion H; subst; auto.
  - split; [constructor | reflexivity].
  - split; [constructor | reflexivity].
Qed.

Lemma cat'_matches a b s : matches (cat' a b) s <-> matches (Cat a b) s.
Proof.
  assert (Hdead : forall x t, matches (Cat x Empty) t -> False).
  { intros x t H. inversion H; subst. eapply matches_Empty; eauto. }
  assert (Hdead' : forall x t, matches (Cat Empty x) t -> False).
  { intros x t H. inversion H; subst. eapply matches_Empty; eauto. }
  assert (Heps : forall x t, matches x t <-> matches (Cat Eps x) t).
  { intros x t. split.
    - intros H. change t with ([] ++ t). constructor; [constructor | exact H].
    - intros H. inversion H as [ | | |? ? u v Hu Hv| | | | | | ]; subst.
      apply matches_Eps in Hu. subst. exact Hv. }
  destruct a, b; simpl; try tauto; try apply Heps;
    try (split; [intros H; exfalso; eapply matches_Empty; eauto
                | intros H; exfalso; eauto]).
Qed.

Lemma alt'_matches a b s : matches (alt' a b) s <-> matches (Alt a b) s.
Proof.
  assert (Hl : forall x t, matches x t <-> matches (Alt Empty x) t).
  { intros x t; split; [apply M_alt_r|].
    intros H; inversion H; subst; [exfalso; eapply matches_Empty; eauto | auto]. }
  assert (Hr : forall x t, matches x t <-> matches (Alt x Empty) t).
  { intros x t; split; [apply M_alt_l|].
    intros H; inversion H; subst; [auto | exfalso; eapply matches_Empty; eauto]. }
  destruct a, b; simpl; try tauto; try apply Hl; try apply Hr.
Qed.

(** A non-empty word of [a*] starts with a non-empty word of [a]. *)
Lemma matches_star_cons a r c s :
  matches r (c :: s) -> r = Star a ->
  exists u v, s = u ++ v /\ matches a (c :: u) /\ matches (Star a) v.
Proof.
  intros H. remember (c :: s) as w eqn:Hw. revert c s Hw.
  induction H; intros c0 s0 Hw Hr; try discriminate.
  injection Hr as ->.
  destruct s as [|x u].
  - simpl in Hw. eapply IHmatches2; eauto.
  - simpl in Hw. injection Hw as -> <-.
    exists u, t. auto.
Qed.

Lemma deriv_matches r : forall c s,
  matches (deriv c r) s <-> matches r (c :: s).
Proof.
  induction r as [ | | a | | r1 IHr1 r2 IHr2 | r1 IHr1 r2 IHr2 | r IHr | r IHr];
    intros c s; simpl.
  - split; intros H; inversion H.
  - split; intros H; inversion H.
  - destruct (N.eqb_spec a c) as [->|Hne]; split; intros H.
    + apply matches_Eps in H. subst. constructor.
    + inversion H; subst. constructor.
    + inversion H.
    + inversion H; subst. congruence.
  - destruct (N.eqb_spec c newline) as [->|Hne]; split; intros H.
    + inversion H.
    + inversion H; subst. congruence.
    + apply matches_Eps in H. subst. now constructor.
    + inversion H; subst. constructor.
  - rewrite alt'_matches. split.
    + intros H. inversion H as [ | | | |? ? ? H1|? ? ? H1| | | | ]; subst.
      * apply cat'_matches in H1.
        inversion H1 as [ | | |? ? u v Hu Hv| | | | | | ]; subst.
        apply IHr1 in Hu. change (c :: u ++ v) with ((c :: u) ++ v).
        now constructor.
      * destruct (nullable r1) eqn:Hn; [|inversion H1].
        apply nullable_matches in Hn. apply IHr2 in H1.
        change (c :: s) with ([] ++ c :: s). now constructor.
    + intros H. inversion H as [ | | |? ? u v Hu Hv Hab Huv| | | | | | ]; subst.
      destruct u as [|x u]; simpl in Huv.
      * subst v. apply M_alt_r.
        apply nullable_matches in Hu. rewrite Hu. now apply IHr2.
      * injection Huv as -> <-. apply M_alt_l, cat'_matches.
        constructor; [now apply IHr1 | exact Hv].
  - rewrite alt'_matches. split.
    + intros H; inversion H; subst;
        [apply M_alt_l; now apply IHr1 | apply M_alt_r; now apply IHr2].
    + intros H; inversion H; subst;
        [apply M_alt_l; now apply IHr1 | apply M_alt_r; now apply IHr2].
  - rewrite cat'_matches. split.
    + intros H. inversion H as [ | | |? ? u v Hu Hv| | | | | | ]; subst.
      apply IHr in Hu. change (c :: u ++ v) with ((c :: u) ++ v).
      now constructor.
    + intros H.
      destruct (@matches_star_cons r _ c s H eq_refl) as (u & v & -> & Hu & Hv).
      constructor; [now apply IHr | exact Hv].
  - split.
    + intros H. apply M_opt_some. now apply IHr.
    + intros H. inversion H; subst. now apply IHr.
Qed.

Lemma re_match_spec r : forall s,
  re_match r s = true <-> exists p q, s = p ++ q /\ matches r p.
Proof.
  intros s. revert r. induction s as [|c s IH]; intros r; simpl.
  - rewrite orb_false_r, nullable_matches. split.
    + intros H. exists [], []. auto.
    + intros (p & q & Hpq & H). symmetry in Hpq.
      apply app_eq_nil in Hpq as [-> _]. exact H.
  - rewrite orb_true_iff, nullable_matches, IH. split.
    + intros [H|(p & q & -> & H)].
      * exists [], (c :: s). auto.
      * exists (c :: p), q. split; [reflexivity | now apply deriv_matches].
    + intros (p & q & Hpq & H). destruct p as [|x p].
      * now left.
      * right. simpl in Hpq. injection Hpq as <- ->.
        exists p, q. split; [reflexivity | now apply deriv_matches].
Qed.

(** [re_search] holds exactly when some substring is in the language. *)
Lemma re_search_spec r : forall s,
  re_search r s = true <-> exists a m b, s = a ++ m ++ b /\ matches r m.
Proof.
  induction s as [|c s IH]; cbn [re_search].
  - rewrite orb_false_r, re_match_spec. split.
    + intros (p & q & Hpq & H). exists [], p, q. auto.
    + intros (a & m & b & Hs & H). symmetry in Hs.
      apply app_eq_nil in Hs as [-> Hs]. apply app_eq_nil in Hs as [-> ->].
      exists [], []. auto.
  - rewrite orb_true_iff, re_match_spec, IH. split.
    + intros [(p & q & Hpq & H)|(a & m & b & -> & H)].
      * exists [], p, q. auto.
      * exists (c :: a), m, b. auto.
    + intros (a & m & b & Hs & H). destruct a as [|x a].
      * left. exists m, b. auto.
      * right. simpl in Hs. injection Hs as <- ->. exists a, m, b. auto.
Qed.

Lemma re_search_substring r a m b :
  re_match r m = true -> re_search r (a ++ m ++ b) = true.
Proof.
  intros H. apply re_match_spec in H as (p & q & -> & H).
  apply re_search_spec. exists a, p, (q ++ b).
  rewrite <- app_assoc. auto.
Qed.

(** ** Classifier *)

Section ClassifierProperties.

Context {py : PyText}.

Lemma first_match_wins rules t : forall pre r post,
  rules = pre ++ r :: post ->
  Forall (fun q => applies q t = false) pre ->
  applies r t = true ->
  first_match rules t = result r t.
Proof.
  intros pre. revert rules.
  induction pre as [|q pre IH]; intros rules r post -> Hpre Hr; simpl.
  - now rewrite Hr.
  - inversion Hpre as [|? ? Hq Hpre']; subst. rewrite Hq. eapply IH; eauto.
Qed.

Lemma first_match_default rules t :
  Forall (fun q => applies q t = false) rules ->
  first_match rules t = default_result.
Proof.
  induction 1 as [|q rules Hq _ IH]; simpl; [reflexivity | now rewrite Hq].
Qed.

Lemma detect_metadata_cascade text page_num :
  triple_of (detect_metadata text page_num) = classify_cascade text.
Proof.
  unfold detect_metadata, classify_cascade, triple_of, rule_table.
  cbn [first_match applies result].
  repeat match goal with
         | |- context [if re_search ?p ?t then _ else _] =>
             destruct (re_search p t)
         end; reflexivity.
Qed.

Lemma attendance_rule_first text page_num :
  re_search pat_attendance (str_lower text) = true ->
  triple_of (detect_metadata text page_num)
    = ("attendance", "procedure", 1)%string.
Proof.
  intros Ha. rewrite detect_metadata_cascade.
  unfold classify_cascade, rule_table. cbn [first_match applies result].
  now rewrite Ha.
Qed.

(** C2: the classifier is a total function of the text returning one
    topic/task/role_min triple (and the page it was given); it is the
    ordered ten-rule cascade in which the first matching rule wins, so a
    text matching both the check-in rule and the report rule is
    attendance/procedure/1, and a text matching no rule is
    general/reference/1. *)
Theorem detect_metadata_first_match (text : pystr) (page_num : Z) :
  let m := detect_metadata text page_num in
  let t := str_lower text in
  triple_of m = first_match rule_table t /\
  Metadata.page m = page_num /\
  List.length rule_table = 10%nat /\
  (forall pre r post,
      rule_table = pre ++ r :: post ->
      Forall (fun q => applies q t = false) pre ->
      applies r t = true ->
      triple_of m = result r t) /\
  (re_search pat_attendance t = true ->
   re_search pat_reports t = true ->
   triple_of m = ("attendance", "procedure", 1)%string) /\
  (Forall (fun q => applies q t = false) rule_table ->
   triple_of m = ("general", "reference", 1)%string).
Proof.
  intros m t. subst m.
  pose proof (detect_metadata_cascade text page_num) as Hc.
  unfold classify_cascade in Hc. fold t in Hc.
  split; [exact Hc|]. split.
  { unfold detect_metadata.
    destruct (if re_search pat_attendance (str_lower text)
              then _ else _) as [[? ?] ?]. reflexivity. }
  split; [reflexivity|]. rewrite Hc. split; [|split].
  - intros pre r post Hsplit Hpre Hr. eapply first_match_wins; eauto.
  - intros Ha _. rewrite <- Hc. now apply attendance_rule_first.
  - intros Hnone. now apply first_match_default.
Qed.

(** A text whose lower-cased form contains "check-in" and, somewhere
    else, "report" is classified by rule 1 although rule 4 matches. *)
Lemma check_in_before_report text page_num a b c :
  str_lower text = a ++ str "check-in" ++ b ++ str "report" ++ c ->
  re_search pat_reports (str_lower text) = true /\
  triple_of (detect_metadata text page_num)
    = ("attendance", "procedure", 1)%string.
Proof.
  intros Ht.
  assert (Hr : re_search pat_reports (str_lower text) = true).
  { rewrite Ht.
    replace (a ++ str "check-in" ++ b ++ str "report" ++ c)
      with ((a ++ str "check-in" ++ b) ++ str "report" ++ c)
      by (now rewrite <- !app_assoc).
    apply re_search_substring. reflexivity. }
  split; [exact Hr|].
  apply attendance_rule_first.
  rewrite Ht. apply re_search_substring. reflexivity.
Qed.

(** C10: whatever the text, role_min is one of 1, 3, 5, 10, task is one
    of four values and topic is one of eleven values. *)
Theorem detect_metadata_range (text : pystr) (page_num : Z) :
  let m := detect_metadata text page_num in
  In (Metadata.role_min m) [1; 3; 5; 10] /\
  In (Metadata.task m)
     ["procedure"; "navigation"; "reference"; "troubleshooting"]%string /\
  In (Metadata.topic m)
     ["general"; "attendance"; "children"; "guardians"; "reports";
      "staff_management"; "email"; "settings"; "navigation";
      "troubleshooting"; "overview"]%string.
Proof.
  unfold detect_metadata.
  repeat match goal with
         | |- context [if re_search ?p ?t then _ else _] =>
             destruct (re_search p t)
         end; cbn; intuition.
Qed.

End ClassifierProperties.

Lemma detect_metadata_first_match_witness :
  triple_of (detect_metadata (py := ascii_text)
               (str "Open the CHECK-IN report") 4)
    = ("attendance", "procedure", 1)%string /\
  triple_of (detect_metadata (py := ascii_text)
               (str "Welcome to the manual") 4)
    = ("general", "reference", 1)%string.
Proof.
  split.
  - pose proof (@detect_metadata_first_match ascii_text
                  (str "Open the CHECK-IN report") 4) as H.
    cbv zeta in H. destruct H as (_ & _ & _ & _ & H & _).
    apply H; vm_compute; reflexivity.
  - pose proof (@detect_metadata_first_match ascii_text
                  (str "Welcome to the manual") 4) as H.
    cbv zeta in H. destruct H as (_ & _ & _ & _ & _ & H).
    apply H. unfold rule_table.
    repeat (constructor; [vm_compute; reflexivity|]). constructor.
Defined.

(** ** String primitives *)

Lemma len_nonneg {A} (s : list A) : 0 <= len s.
Proof. unfold len. lia. Qed.

Lemma len_app {A} (s t : list A) : len (s ++ t) = len s + len t.
Proof. unfold len. rewrite length_app. lia. Qed.

Lemma len_cons {A} (x : A) (s : list A) : len (x :: s) = 1 + len s.
Proof. unfold len. cbn [List.length]. lia. Qed.

Lemma len_nil_iff {A} (s : list A) : len s = 0 <-> s = [].
Proof.
  unfold len. destruct s; simpl; split; intros H; try reflexivity; try lia.
  discriminate.
Qed.

(** A slice is a contiguous piece of the sequence. *)
Lemma slice_infix {A} (s : list A) i j :
  exists a b, s = a ++ slice s i j ++ b.
Proof.
  unfold slice.
  set (lo := Z.to_nat (adjust_index (len s) i)).
  set (n := Z.to_nat (adjust_index (len s) j - adjust_index (len s) i)).
  exists (firstn lo s), (skipn n (skipn lo s)).
  now rewrite (firstn_skipn n), (firstn_skipn lo).
Qed.

Lemma slice_len_bound {A} (s : list A) i j :
  i <= len s -> len (slice s i j) <= len s - Z.max 0 i.
Proof.
  intros Hi. unfold slice, len in *.
  rewrite length_firstn, length_skipn. unfold adjust_index.
  destruct (i <? 0) eqn:Ei; destruct (j <? 0) eqn:Ej; lia.
Qed.

Lemma slice_len_width {A} (s : list A) i j :
  0 <= i -> 0 <= j -> len (slice s i j) <= Z.max 0 (j - i).
Proof.
  intros Hi Hj. unfold slice, len.
  rewrite length_firstn, length_skipn. unfold adjust_index.
  destruct (Z.ltb_spec i 0); [lia|]. destruct (Z.ltb_spec j 0); lia.
Qed.

Lemma slice_nonneg {A} (s : list A) i j :
  0 <= i -> 0 <= j ->
  slice s i j
    = firstn (Z.to_nat (Z.min j (len s) - Z.min i (len s)))
             (skipn (Z.to_nat (Z.min i (len s))) s).
Proof.
  intros Hi Hj. unfold slice, adjust_index.
  destruct (Z.ltb_spec i 0); [lia|]. destruct (Z.ltb_spec j 0); [lia|].
  reflexivity.
Qed.

Lemma rfind_from_range c s : forall i last,
  rfind_from c s i last = last \/
  i <= rfind_from c s i last < i + len s.
Proof.
  induction s as [|x s IH]; intros i last; cbn [rfind_from].
  - now left.
  - rewrite len_cons. pose proof (len_nonneg s).
    destruct (IH (i + 1) (if N.eqb x c then i else last)) as [H'|H'].
    + rewrite H'. destruct (N.eqb x c); [right; lia | now left].
    + right. lia.
Qed.

Lemma rfind_range c s : -1 <= rfind c s < len s.
Proof.
  unfold rfind. pose proof (len_nonneg s).
  destruct (rfind_from_range c s 0 (-1)) as [H'|H']; lia.
Qed.

(** [rfind] returns the position of the last occurrence. *)
Lemma rfind_from_spec c s : forall i last k,
  rfind_from c s i last = k ->
  (k = last /\ ~ In c s) \/
  (exists a b, s = a ++ c :: b /\ ~ In c b /\ k = i + len a).
Proof.
  induction s as [|x s IH]; intros i last k; cbn [rfind_from].
  - intros <-. left. auto.
  - intros Hk. destruct (IH _ _ _ Hk) as [[Hl Hn]|(a & b & -> & Hb & Ha)].
    + destruct (N.eqb_spec x c) as [->|Hne].
      * right. exists [], s. repeat split; auto. unfold len; simpl. lia.
      * left. split; [exact Hl|]. intros [H'|H']; auto.
    + right. exists (x :: a), b. repeat split; auto.
      rewrite len_cons. lia.
Qed.

Lemma rfind_spec c s :
  (rfind c s = -1 /\ ~ In c s) \/
  (exists a b, s = a ++ c :: b /\ ~ In c b /\ rfind c s = len a).
Proof.
  destruct (@rfind_from_spec c s 0 (-1) _ eq_refl)
    as [[H1 H2]|(a & b & H1 & H2 & H3)].
  - left. auto.
  - right. exists a, b. repeat split; auto.
Qed.

Lemma lstrip_suffix s : exists a, s = a ++ lstrip s.
Proof.
  induction s as [|c s [a IH]]; simpl.
  - now exists [].
  - destruct (is_space c).
    + exists (c :: a). simpl. now rewrite <- IH.
    + now exists [].
Qed.

Lemma lstrip_head s {c t} : lstrip s = c :: t -> is_space c = false.
Proof.
  induction s as [|x s IH]; simpl; [discriminate|].
  destruct (is_space x) eqn:E; [exact IH|].
  intros [= -> _]. exact E.
Qed.

Lemma lstrip_fixed c t : is_space c = false -> lstrip (c :: t) = c :: t.
Proof. intros H. simpl. now rewrite H. Qed.

Lemma lstrip_idem s : lstrip (lstrip s) = lstrip s.
Proof.
  destruct (lstrip s) as [|c t] eqn:E; [reflexivity|].
  apply lstrip_fixed. eapply lstrip_head; eauto.
Qed.

Lemma lstrip_len s : len (lstrip s) <= len s.
Proof.
  destruct (lstrip_suffix s) as [a H]. rewrite H at 2.
  rewrite len_app. pose proof (len_nonneg a). lia.
Qed.

Lemma lstrip_len_app x y : len (lstrip x) <= len (lstrip (x ++ y)).
Proof.
  induction x as [|c x IH]; simpl.
  - apply len_nonneg.
  - destruct (is_space c); [exact IH|].
    change (c :: x ++ y) with ((c :: x) ++ y). rewrite len_app.
    pose proof (len_nonneg y). lia.
Qed.

Lemma lstrip_prepend a w : exists a', lstrip (a ++ w) = a' ++ lstrip w.
Proof.
  induction a as [|c a [a' IH]]; simpl.
  - now exists [].
  - destruct (is_space c).
    + now exists a'.
    + destruct (lstrip_suffix w) as [p Hp].
      exists (c :: a ++ p). simpl. now rewrite <- app_assoc, <- Hp.
Qed.

Lemma lstrip_app_nonempty w b :
  lstrip w <> [] -> lstrip (w ++ b) = lstrip w ++ b.
Proof.
  induction w as [|c w IH]; simpl; [congruence|].
  destruct (is_space c); [exact IH | reflexivity].
Qed.

Lemma lstrip_snoc a c :
  is_space c = false -> lstrip (a ++ [c]) = lstrip a ++ [c].
Proof.
  intros Hc. induction a as [|x a IH]; simpl.
  - now rewrite Hc.
  - destruct (is_space x); [exact IH | reflexivity].
Qed.

Lemma rstrip_len s : len (rstrip s) <= len s.
Proof.
  unfold rstrip. pose proof (lstrip_len (rev s)) as H.
  unfold len in *. rewrite length_rev in *. exact H.
Qed.

Lemma rstrip_len_prepend a u : len (rstrip u) <= len (rstrip (a ++ u)).
Proof.
  unfold rstrip. rewrite rev_app_distr.
  pose proof (lstrip_len_app (rev u) (rev a)) as H.
  unfold len in *. now rewrite !length_rev.
Qed.

Lemma rstrip_len_append u b : len (rstrip u) <= len (rstrip (u ++ b)).
Proof.
  unfold rstrip. rewrite rev_app_distr.
  destruct (lstrip_prepend (rev b) (rev u)) as [a' ->].
  unfold len. rewrite !length_rev, length_app. lia.
Qed.

Lemma rstrip_keeps_head c t :
  is_space c = false -> exists t', rstrip (c :: t) = c :: t'.
Proof.
  intros Hc. unfold rstrip. simpl rev.
  rewrite (lstrip_snoc (rev t) c Hc), rev_app_distr. simpl. eauto.
Qed.

Lemma rstrip_idem s : rstrip (rstrip s) = rstrip s.
Proof.
  unfold rstrip. now rewrite rev_involutive, lstrip_idem.
Qed.

Lemma strip_len s : len (strip s) <= len s.
Proof.
  unfold strip. pose proof (rstrip_len (lstrip s)). pose proof (lstrip_len s).
  lia.
Qed.

(** Stripping a stripped string changes nothing. *)
Lemma strip_idem s : strip (strip s) = strip s.
Proof.
  unfold strip.
  assert (H : lstrip (rstrip (lstrip s)) = rstrip (lstrip s)).
  { destruct (lstrip s) as [|c t] eqn:E; [reflexivity|].
    pose proof (lstrip_head s E) as Hc.
    destruct (rstrip_keeps_head c t Hc) as [t' ->].
    now apply lstrip_fixed. }
  rewrite H. apply rstrip_idem.
Qed.

(** The trimmed form of a piece is no longer than that of the whole. *)
Lemma strip_len_infix a w b : len (strip w) <= len (strip (a ++ w ++ b)).
Proof.
  assert (Hr : len (strip w) <= len (strip (w ++ b))).
  { unfold strip. destruct (lstrip w) as [|c t] eqn:E.
    - unfold rstrip at 1. simpl. apply len_nonneg.
    - rewrite lstrip_app_nonempty by (rewrite E; discriminate).
      rewrite E. apply rstrip_len_append. }
  assert (Hl : len (strip (w ++ b)) <= len (strip (a ++ w ++ b))).
  { unfold strip. destruct (lstrip_prepend a (w ++ b)) as [a' ->].
    apply rstrip_len_prepend. }
  lia.
Qed.

Lemma format_int_parse n : parse_int (format_int n) = Some n.
Proof.
  unfold parse_int, format_int.
  rewrite NilEmpty.usu. cbn [option_map].
  now rewrite DecimalNat.Unsigned.of_to.
Qed.

Lemma chunk_number_id n : chunk_number (chunk_id n) = Some n.
Proof. unfold chunk_id. cbn [chunk_number append]. apply format_int_parse. Qed.

Lemma chunk_id_inj m n : chunk_id m = chunk_id n -> m = n.
Proof.
  intros H. apply (f_equal chunk_number) in H.
  rewrite !chunk_number_id in H. now injection H.
Qed.

Lemma NoDup_map_injective {A B} (f : A -> B) (l : list A) :
  (forall x y, f x = f y -> x = y) -> NoDup l -> NoDup (map f l).
Proof.
  intros Hinj. induction 1 as [|x l Hx Hl IH]; cbn [map]; constructor; auto.
  rewrite in_map_iff. intros (y & Hy & Hin). apply Hinj in Hy. now subst.
Qed.

(** ** Chunker: windows and the cursor *)

Lemma window_is_slice text start :
  exists j, window text start = strip (slice text start j).
Proof.
  unfold window. cbv zeta.
  destruct (Z.min (start + chunk_size) (len text) <? len text);
    [destruct (break_threshold <? _)|]; eauto.
Qed.

Lemma window_len_bound text start :
  start < len text -> len (window text start) <= len text - Z.max 0 start.
Proof.
  intros Hs. destruct (window_is_slice text start) as [j ->].
  pose proof (strip_len (slice text start j)).
  pose proof (@slice_len_bound _ text start j). lia.
Qed.

(** A window is never longer than the trimmed page. *)
Lemma window_len_page text start : len (window text start) <= len (strip text).
Proof.
  destruct (window_is_slice text start) as [j ->].
  destruct (slice_infix text start j) as (a & b & H).
  rewrite H at 2. apply strip_len_infix.
Qed.

Lemma window_trimmed text start :
  strip (window text start) = window text start.
Proof.
  destruct (window_is_slice text start) as [j ->]. apply strip_idem.
Qed.

(** The cursor never reaches the end of the text: a window is at most
    as long as what lies to the right of the cursor, and the overlap is
    subtracted from the advance. *)
Lemma advance_below text start :
  start < len text ->
  start + (len (window text start) - chunk_overlap) <= len text - chunk_overlap.
Proof.
  intros Hs. pose proof (window_len_bound text start Hs). lia.
Qed.

(** For a non-negative cursor the window of the script is the window of
    the design document. *)
Lemma window_refines_spec text start :
  0 <= start -> window text start = spec_window text start.
Proof.
  intros H0. unfold window, spec_window. cbv zeta.
  set (e := Z.min (start + chunk_size) (len text)).
  set (tentative := slice text start e).
  set (bp := Z.max (rfind period tentative) (rfind newline tentative)).
  replace (7 * chunk_size <? 10 * bp) with (break_threshold <? bp)
    by (unfold chunk_size, break_threshold;
        destruct (Z.ltb_spec 560 bp), (Z.ltb_spec (7 * 800) (10 * bp));
        try reflexivity; lia).
  destruct (Z.ltb_spec e (len text)) as [He|He];
    destruct (Z.leb_spec (len text) e) as [He'|He']; try lia;
    cbn [negb andb]; [|reflexivity].
  destruct (Z.ltb_spec break_threshold bp) as [Hbp|Hbp]; [|reflexivity].
  f_equal.
  assert (Hb : bp < len tentative).
  { pose proof (rfind_range period tentative).
    pose proof (rfind_range newline tentative). unfold bp. lia. }
  unfold break_threshold in Hbp. pose proof (len_nonneg text) as Hn.
  assert (He0 : 0 <= e) by (unfold e, chunk_size; lia).
  pose proof (@slice_len_width _ text start e H0 He0) as Hlen.
  fold tentative in Hlen.
  unfold tentative. rewrite !slice_nonneg by lia.
  rewrite firstn_firstn. f_equal. lia.
Qed.

(** The advance of the cursor is the trimmed length minus the overlap,
    for every cursor. *)
Lemma spec_advance_nonneg text start :
  0 <= start ->
  start + (len (window text start) - chunk_overlap) = spec_advance text start.
Proof.
  intros H. unfold spec_advance. now rewrite window_refines_spec.
Qed.

Section ChunkerProperties.

Context {py : PyText}.

(** One iteration of the while loop. *)
Lemma step_in_page c page start rest :
  pos c = AtWhile page start rest ->
  start < len (Page.text page) ->
  step c =
    Some {| pos := AtWhile page
              (start + (len (window (Page.text page) start) - chunk_overlap))
              rest;
            chunks :=
              if 100 <? len (window (Page.text page) start)
              then chunks c
                     ++ [new_chunk (chunk_counter c)
                           (window (Page.text page) start)
                           (Page.page_num page)]
              else chunks c;
            chunk_counter :=
              if 100 <? len (window (Page.text page) start)
              then S (chunk_counter c) else chunk_counter c |}.
Proof.
  intros Hpos Hs. unfold step. rewrite Hpos.
  apply Z.ltb_lt in Hs. rewrite Hs. cbv zeta.
  destruct (100 <? len (window (Page.text page) start)); reflexivity.
Qed.

Lemma steps_S n c c' : step c = Some c' -> steps (S n) c = steps n c'.
Proof. intros H. cbn [steps]. now rewrite H. Qed.

(** Once inside a page with the cursor before the end, the loop stays
    inside that page with the cursor before the end. *)
Lemma steps_in_page n : forall c page start rest,
  pos c = AtWhile page start rest ->
  start < len (Page.text page) ->
  exists start',
    pos (steps n c) = AtWhile page start' rest /\
    start' < len (Page.text page).
Proof.
  induction n as [|n IH]; intros c page start rest Hpos Hs.
  - exists start. auto.
  - rewrite (steps_S n c _ (step_in_page c page start rest Hpos Hs)).
    eapply IH; [reflexivity|].
    pose proof (advance_below (Page.text page) start Hs).
    unfold chunk_overlap in *. lia.
Qed.

Lemma run_in_page fuel : forall c page start rest,
  pos c = AtWhile page start rest ->
  start < len (Page.text page) ->
  run fuel c = None.
Proof.
  induction fuel as [|fuel IH]; intros c page start rest Hpos Hs;
    cbn [run]; rewrite (step_in_page c page start rest Hpos Hs); [reflexivity|].
  eapply IH; [reflexivity|].
  pose proof (advance_below (Page.text page) start Hs).
  unfold chunk_overlap in *. lia.
Qed.

Lemma run_at_for_diverges pages : forall c fuel,
  pos c = AtFor pages ->
  Exists (fun p => Page.text p <> []) pages ->
  run fuel c = None.
Proof.
  induction pages as [|p rest IH]; intros c fuel Hpos Hex.
  - inversion Hex.
  - destruct fuel as [|fuel]; cbn [run]; unfold step at 1; rewrite Hpos;
      [reflexivity|].
    destruct (Page.text p) as [|x t] eqn:Et.
    + inversion Hex as [? ? Hp|? ? Hrest]; subst; [congruence|].
      destruct fuel as [|fuel]; cbn [run]; unfold step at 1;
        cbn [pos chunks chunk_counter]; rewrite Et; cbn [len List.length];
        [reflexivity|].
      apply IH; [reflexivity | exact Hrest].
    + eapply run_in_page; [reflexivity|]. rewrite Et, len_cons.
      pose proof (len_nonneg t). lia.
Qed.

(** [create_chunks] does not return as soon as one page has text. *)
Lemma create_chunks_diverges pages :
  Exists (fun p => Page.text p <> []) pages ->
  forall fuel counter, create_chunks fuel pages counter = None.
Proof.
  intros Hex fuel counter. unfold create_chunks.
  now apply run_at_for_diverges with (pages := pages).
Qed.

Lemma run_at_for_empty pages : forall c,
  pos c = AtFor pages ->
  Forall (fun p => Page.text p = []) pages ->
  run (2 * List.length pages) c = Some (chunks c, chunk_counter c).
Proof.
  induction pages as [|p rest IH]; intros c Hpos Hall.
  - change (2 * List.length (@nil Page.t))%nat with O.
    cbn [run]. unfold step. now rewrite Hpos.
  - inversion Hall as [|? ? Hp Hrest]; subst.
    replace (2 * List.length (p :: rest))%nat
      with (S (S (2 * List.length rest))) by (cbn [List.length]; lia).
    cbn [run]. unfold step at 1. rewrite Hpos.
    unfold step at 1. cbn [pos chunks chunk_counter]. rewrite Hp.
    cbn [len List.length Z.of_nat Z.ltb Z.compare].
    now rewrite IH.
Qed.

(** It returns, with no chunk, when no page has any text. *)
Lemma create_chunks_empty_pages pages counter :
  Forall (fun p => Page.text p = []) pages ->
  create_chunks (2 * List.length pages) pages counter = Some ([], counter).
Proof.
  intros H. unfold create_chunks.
  now rewrite (run_at_for_empty pages).
Qed.

Lemma create_chunks_no_pages fuel counter :
  create_chunks fuel [] counter = Some ([], counter).
Proof. destruct fuel; reflexivity. Qed.

(** What [run] returns is the chunk list of a reachable configuration. *)
Lemma run_steps fuel : forall c cs k,
  run fuel c = Some (cs, k) ->
  exists n, cs = chunks (steps n c) /\ k = chunk_counter (steps n c).
Proof.
  induction fuel as [|fuel IH]; intros c cs k; cbn [run];
    destruct (step c) as [c'|] eqn:E; try discriminate.
  - intros [= <- <-]. exists O. auto.
  - intros H. destruct (IH _ _ _ H) as (n & -> & ->).
    exists (S n). now rewrite (steps_S n c c' E).
  - intros [= <- <-]. exists O. auto.
Qed.

(** ** Chunker: invariants of a run *)

Lemma entry_invariant pages counter : run_invariant counter (entry pages counter).
Proof.
  unfold run_invariant, entry. cbn. repeat split; [lia | constructor].
Qed.

Lemma step_invariant counter0 c c' :
  run_invariant counter0 c -> step c = Some c' -> run_invariant counter0 c'.
Proof.
  intros (Hk & Hid & Hall). unfold step, run_invariant.
  destruct (pos c) as [[|page rest]|page start rest]; try discriminate.
  - intros [= <-]. repeat split; assumption.
  - cbv zeta. destruct (start <? len (Page.text page)).
    + destruct (Z.ltb_spec 100 (len (window (Page.text page) start)))
        as [Hlong|Hshort]; intros [= <-]; cbn [chunks chunk_counter];
        [|repeat split; assumption].
      repeat split.
      * rewrite length_app. cbn [List.length]. lia.
      * rewrite length_app. cbn [List.length].
        rewrite Nat.add_1_r, seq_S, !map_app, Hid, Hk. reflexivity.
      * apply Forall_app. split; [exact Hall|].
        constructor; [|constructor]. split; cbn [new_chunk Chunk.text].
        -- exact Hlong.
        -- apply window_trimmed.
    + intros [= <-]. repeat split; assumption.
Qed.

Lemma steps_invariant counter0 n : forall c,
  run_invariant counter0 c -> run_invariant counter0 (steps n c).
Proof.
  induction n as [|n IH]; intros c Hc; cbn [steps]; [exact Hc|].
  destruct (step c) as [c'|] eqn:E; [|exact Hc].
  apply IH. eapply step_invariant; eauto.
Qed.

(** Chunks are only ever appended. *)
Lemma step_chunks_prefix c c' :
  step c = Some c' -> exists more, chunks c' = chunks c ++ more.
Proof.
  unfold step.
  destruct (pos c) as [[|page rest]|page start rest]; try discriminate.
  - intros [= <-]. exists []. cbn. now rewrite app_nil_r.
  - cbv zeta. destruct (start <? len (Page.text page)).
    + destruct (100 <? len (window (Page.text page) start));
        intros [= <-]; cbn [chunks]; eauto.
      exists []. now rewrite app_nil_r.
    + intros [= <-]. exists []. cbn. now rewrite app_nil_r.
Qed.

Lemma steps_chunks_prefix n : forall c,
  exists more, chunks (steps n c) = chunks c ++ more.
Proof.
  induction n as [|n IH]; intros c; cbn [steps].
  - exists []. now rewrite app_nil_r.
  - destruct (step c) as [c'|] eqn:E.
    + destruct (step_chunks_prefix c c' E) as [m1 H1].
      destruct (IH c') as [m2 H2]. exists (m1 ++ m2).
      now rewrite H2, H1, app_assoc.
    + exists []. now rewrite app_nil_r.
Qed.

(** No step taken on a page whose trimmed text has at most 100
    characters emits a chunk. *)
Lemma step_short_pages c c' :
  only_short_pages c -> step c = Some c' ->
  only_short_pages c' /\ chunks c' = chunks c /\
  chunk_counter c' = chunk_counter c.
Proof.
  unfold only_short_pages, step.
  destruct (pos c) as [[|page rest]|page start rest]; try discriminate.
  - intros H [= <-]. cbn. inversion H; subst. auto.
  - intros [Hp Hrest]. cbv zeta.
    destruct (start <? len (Page.text page)).
    + pose proof (window_len_page (Page.text page) start) as Hw.
      unfold short_page in Hp.
      destruct (Z.ltb_spec 100 (len (window (Page.text page) start)));
        [lia|].
      intros [= <-]. cbn. auto.
    + intros [= <-]. cbn. auto.
Qed.

Lemma steps_short_pages n : forall c,
  only_short_pages c ->
  chunks (steps n c) = chunks c /\
  chunk_counter (steps n c) = chunk_counter c.
Proof.
  induction n as [|n IH]; intros c Hc; cbn [steps]; [auto|].
  destruct (step c) as [c'|] eqn:E; [|auto].
  destruct (step_short_pages c c' Hc E) as (Hc' & <- & <-). now apply IH.
Qed.

Lemma steps_halted n c : step c = None -> steps n c = c.
Proof. intros H. destruct n; cbn [steps]; [reflexivity | now rewrite H]. Qed.

Lemma steps_add a : forall b c, steps (a + b) c = steps b (steps a c).
Proof.
  induction a as [|a IH]; intros b c; cbn [Nat.add steps]; [reflexivity|].
  destruct (step c) as [c'|] eqn:E; [apply IH|].
  symmetry. now apply steps_halted.
Qed.

(** ** Chunker: the properties of the design document *)

(** C3: there is a page text whose trimmed window is shorter than the
    overlap, so that the cursor moves backwards; on it the loop never
    terminates, whatever the fuel, and the same window is emitted twice
    under successive ids. *)
Theorem chunker_loop_does_not_terminate :
  exists text : pystr,
    let page := Page.mk 1 text in
    len (window text 0) < chunk_overlap /\
    0 + (len (window text 0) - chunk_overlap) <= 0 /\
    (forall fuel counter, create_chunks fuel [page] counter = None) /\
    (forall n, exists start',
        pos (steps (S n) (entry [page] 0)) = AtWhile page start' [] /\
        start' < len text) /\
    map Chunk.text (chunks (steps 4 (entry [page] 0))) = [text; text] /\
    map Chunk.id (chunks (steps 4 (entry [page] 0)))
      = ["chunk-0"; "chunk-1"]%string.
Proof.
  exists stall_text. cbv zeta. split; [vm_compute; reflexivity|].
  split; [vm_compute; discriminate|]. split; [|split; [|split]].
  - apply create_chunks_diverges. constructor. discriminate.
  - intros n.
    apply (steps_in_page n _ (Page.mk 1 stall_text) 0 []); [reflexivity|].
    vm_compute. reflexivity.
  - vm_compute. reflexivity.
  - vm_compute. reflexivity.
Qed.

(** C4: at every point of a run every emitted chunk has a trimmed text
    of more than 100 characters; a window whose trimmed text has at
    most 100 characters is passed over without a chunk and without an
    error; no step taken on a page whose trimmed text has at most 100
    characters emits a chunk, and over such pages alone no chunk is
    emitted at all. *)
Theorem emitted_chunks_exceed_100 (pages : list Page.t) (counter n : nat) :
  let c := steps n (entry pages counter) in
  Forall trimmed_long (chunks c) /\
  (forall page start rest,
      pos c = AtWhile page start rest ->
      start < len (Page.text page) ->
      len (window (Page.text page) start) <= 100 ->
      exists c',
        step c = Some c' /\ chunks c' = chunks c /\
        chunk_counter c' = chunk_counter c) /\
  (forall page start rest,
      pos c = AtWhile page start rest ->
      short_page page ->
      forall c',
        step c = Some c' ->
        chunks c' = chunks c /\ chunk_counter c' = chunk_counter c) /\
  (Forall short_page pages -> chunks c = [] /\ chunk_counter c = counter).
Proof.
  cbv zeta. split; [|split; [|split]].
  - apply (steps_invariant counter n), entry_invariant.
  - intros page start rest Hpos Hs Hw.
    rewrite (step_in_page _ page start rest Hpos Hs).
    destruct (Z.ltb_spec 100 (len (window (Page.text page) start))); [lia|].
    eexists. split; [reflexivity|]. cbn. auto.
  - intros page start rest Hpos Hshort c'. unfold step. rewrite Hpos.
    cbv zeta. pose proof (window_len_page (Page.text page) start) as Hw.
    unfold short_page in Hshort.
    destruct (start <? len (Page.text page)).
    + destruct (Z.ltb_spec 100 (len (window (Page.text page) start)));
        [lia|]. intros [= <-]. cbn. auto.
    + intros [= <-]. cbn. auto.
  - intros Hshort. now apply (steps_short_pages n (entry pages counter)).
Qed.

(** C5: at every point of a run started with the counter at 0, the
    i-th emitted chunk carries the id formatted from the counter value
    i, so the ids are pairwise distinct and their counter values
    strictly increase in emission order, over any list of pages. *)
Theorem chunk_ids_unique_increasing (pages : list Page.t) (n : nat) :
  let c := steps n (entry pages 0) in
  chunk_counter c = List.length (chunks c) /\
  (forall i ch,
      nth_error (chunks c) i = Some ch ->
      Chunk.id ch = chunk_id i /\ chunk_number (Chunk.id ch) = Some i) /\
  NoDup (map Chunk.id (chunks c)) /\
  (forall i j ci cj,
      nth_error (chunks c) i = Some ci ->
      nth_error (chunks c) j = Some cj ->
      (i < j)%nat ->
      exists a b,
        chunk_number (Chunk.id ci) = Some a /\
        chunk_number (Chunk.id cj) = Some b /\ (a < b)%nat).
Proof.
  cbv zeta.
  destruct (steps_invariant 0 n _ (entry_invariant pages 0)) as (Hk & Hid & _).
  set (c := steps n (entry pages 0)) in *.
  assert (Hnth : forall i ch,
             nth_error (chunks c) i = Some ch -> Chunk.id ch = chunk_id i).
  { intros i ch Hi.
    assert (Hlt : (i < List.length (chunks c))%nat)
      by (apply nth_error_Some; congruence).
    pose proof (f_equal (fun l => nth_error l i) Hid) as E. cbv beta in E.
    rewrite !nth_error_map, Hi, nth_error_seq in E.
    apply Nat.ltb_lt in Hlt. rewrite Hlt in E.
    cbn [option_map Nat.add] in E. now injection E. }
  split; [exact Hk|]. split; [|split].
  - intros i ch Hi. rewrite (Hnth i ch Hi).
    split; [reflexivity | apply chunk_number_id].
  - rewrite Hid. apply NoDup_map_injective; [|apply seq_NoDup].
    intros a b. apply chunk_id_inj.
  - intros i j ci cj Hi Hj Hij. exists i, j.
    rewrite (Hnth i ci Hi), (Hnth j cj Hj), !chunk_number_id. auto.
Qed.

(** C1, at a cursor the run reaches: on a page of 700 blanks, a period
    and 299 blanks the cursor is -1048 after eight transitions; the
    tentative window there is [text[0:752]], it does not reach the end
    of the text and its last period, at 700, lies beyond 70 percent of
    the chunk size; the slice taken by the script is [text[0:653]],
    which does not contain that period, where a window ending right
    after the break character is [text[0:701]]. *)
Theorem window_misses_break_at_negative_cursor :
  let text := blank_text in
  let page := Page.mk 1 text in
  let start := -1048 in
  let end_ := Z.min (start + chunk_size) (len text) in
  let tentative := slice text start end_ in
  let break_point := Z.max (rfind period tentative) (rfind newline tentative) in
  pos (steps 8 (entry [page] 0)) = AtWhile page start [] /\
  end_ < len text /\
  tentative = slice text 0 752 /\
  break_point = 700 /\
  break_threshold < break_point /\
  slice text start (start + break_point + 1) = slice text 0 653 /\
  ~ In period (slice text start (start + break_point + 1)) /\
  window text start = [] /\
  firstn (Z.to_nat (break_point + 1)) tentative = slice text 0 701 /\
  spec_window text start = [period].
Proof.
  cbv zeta. repeat split; try (vm_compute; reflexivity).
  intros H.
  assert (E : existsb (N.eqb period)
                (slice blank_text (-1048)
                   (-1048 + Z.max (rfind period
                                     (slice blank_text (-1048)
                                        (Z.min (-1048 + chunk_size)
                                               (len blank_text))))
                                  (rfind newline
                                     (slice blank_text (-1048)
                                        (Z.min (-1048 + chunk_size)
                                               (len blank_text)))) + 1))
              = false) by (vm_compute; reflexivity).
  apply Bool.not_true_iff_false in E. apply E.
  apply existsb_exists. exists period. split; [exact H | reflexivity].
Qed.

(** C6, as amended: on the page ["A." * 50 + "\n" + "B." * 50], of 201
    characters, the first two chunks emitted are the whole page, which
    ends with a period at its end 201, and [text[51:201]], which starts
    at 201 - 150; they stay the first two chunks from then on. *)
Theorem ab_page_first_two_chunks (n : nat) :
  (3 <= n)%nat ->
  let page := Page.mk 1 ab_text in
  exists c0 c1 more,
    chunks (steps n (entry [page] 0)) = c0 :: c1 :: more /\
    Chunk.id c0 = "chunk-0"%string /\
    Chunk.text c0 = slice ab_text 0 201 /\
    last (Chunk.text c0) 0%N = period /\
    Chunk.id c1 = "chunk-1"%string /\
    Chunk.text c1 = slice ab_text 51 201 /\
    51 = 201 - chunk_overlap.
Proof.
  intros Hn. cbv zeta.
  replace n with (3 + (n - 3))%nat by lia. rewrite steps_add.
  destruct (steps_chunks_prefix (n - 3)
              (steps 3 (entry [Page.mk 1 ab_text] 0))) as [more ->].
  assert (E : chunks (steps 3 (entry [Page.mk 1 ab_text] 0))
              = [new_chunk 0 ab_text 1;
                 new_chunk 1 (slice ab_text 51 201) 1])
    by (vm_compute; reflexivity).
  rewrite E. exists (new_chunk 0 ab_text 1).
  exists (new_chunk 1 (slice ab_text 51 201) 1), more.
  cbn [app new_chunk Chunk.id Chunk.text].
  repeat split; vm_compute; reflexivity.
Qed.

(** On a page of 150 characters of prose the window taken at cursor 0
    is the whole page, the cursor advances by 150 - 150 = 0, and every
    iteration emits one more chunk. *)
Lemma prose_page_cursor_stalls :
  let page := Page.mk 1 prose_text in
  len prose_text = 150 /\
  window prose_text 0 = prose_text /\
  (forall n,
      pos (steps (S n) (entry [page] 0)) = AtWhile page 0 [] /\
      List.length (chunks (steps (S n) (entry [page] 0))) = n) /\
  (forall fuel, create_chunks fuel [page] 0 = None) /\
  map Chunk.id (chunks (steps 3 (entry [page] 0)))
    = ["chunk-0"; "chunk-1"]%string /\
  map Chunk.text (chunks (steps 3 (entry [page] 0)))
    = [prose_text; prose_text].
Proof.
  cbv zeta.
  assert (Hlen : len prose_text = 150) by (vm_compute; reflexivity).
  assert (Hw : window prose_text 0 = prose_text) by (vm_compute; reflexivity).
  split; [exact Hlen|]. split; [exact Hw|]. split; [|split; [|split]].
  - assert (H : forall n c,
               pos c = AtWhile (Page.mk 1 prose_text) 0 [] ->
               pos (steps n c) = AtWhile (Page.mk 1 prose_text) 0 [] /\
               List.length (chunks (steps n c))
                 = (List.length (chunks c) + n)%nat).
    { induction n as [|n IH]; intros c Hpos.
      - cbn [steps]. split; [exact Hpos | lia].
      - assert (Hs : 0 < len (Page.text (Page.mk 1 prose_text)))
          by (cbn [Page.text]; rewrite Hlen; lia).
        rewrite (steps_S n c _ (step_in_page c _ 0 [] Hpos Hs)).
        cbn [Page.text Page.page_num]. rewrite Hw, Hlen.
        change (100 <? 150) with true. cbv iota.
        destruct (IH {| pos := AtWhile (Page.mk 1 prose_text)
                                 (0 + (150 - chunk_overlap)) [];
                        chunks := chunks c
                          ++ [new_chunk (chunk_counter c) prose_text 1];
                        chunk_counter := S (chunk_counter c) |} eq_refl)
          as [IH1 IH2].
        split; [exact IH1|]. rewrite IH2. cbn [chunks].
        rewrite length_app. cbn [List.length]. lia. }
    intros n.
    rewrite (steps_S n (entry [Page.mk 1 prose_text] 0)
               {| pos := AtWhile (Page.mk 1 prose_text) 0 [];
                  chunks := []; chunk_counter := 0 |} eq_refl).
    apply (H n {| pos := AtWhile (Page.mk 1 prose_text) 0 [];
                  chunks := []; chunk_counter := 0 |} eq_refl).
  - intros fuel. apply create_chunks_diverges. constructor. discriminate.
  - vm_compute. reflexivity.
  - vm_compute. reflexivity.
Qed.

End ChunkerProperties.

(** ** Embedder *)

Lemma firstn_add_skipn {A} (s : list A) : forall a b,
  firstn a s ++ firstn b (skipn a s) = firstn (a + b) s.
Proof.
  induction s as [|x s IH]; intros a b.
  - now rewrite skipn_nil, !firstn_nil.
  - destruct a as [|a]; cbn [firstn skipn app Nat.add]; [reflexivity|].
    now rewrite IH.
Qed.

(** Consecutive slices tile a prefix. *)
Lemma firstn_slice {A} (s : list A) i j :
  0 <= i <= j ->
  firstn (Z.to_nat i) s ++ slice s i j = firstn (Z.to_nat j) s.
Proof.
  intros Hij. rewrite slice_nonneg by lia. unfold len.
  destruct (Z.le_gt_cases i (Z.of_nat (List.length s))) as [Hi|Hi].
  - rewrite (Z.min_l i) by lia. rewrite firstn_add_skipn.
    destruct (Z.le_gt_cases j (Z.of_nat (List.length s))) as [Hj|Hj].
    + rewrite (Z.min_l j) by lia. f_equal. lia.
    + rewrite (Z.min_r j) by lia.
      rewrite !firstn_all2 by lia. reflexivity.
  - rewrite (Z.min_r i), (Z.min_r j) by lia.
    rewrite skipn_all2 by lia. rewrite firstn_nil, app_nil_r.
    rewrite !firstn_all2 by lia. reflexivity.
Qed.

Section StageProperties.

Context {py : PyText}.
Variables W vec : Type.
Variable svc : services W vec.

Lemma bind_ok {A B} {m : M W A} {k : A -> M W B} {st a st'} :
  m st = (Ok a, st') -> bind m k st = k a st'.
Proof. intros H. unfold bind. now rewrite H. Qed.

Lemma bind_raise {A B} {m : M W A} {k : A -> M W B} {st e st'} :
  m st = (Raise e, st') -> bind m k st = (Raise e, st').
Proof. intros H. unfold bind. now rewrite H. Qed.

Lemma call_returns {A} {op : W -> response A * W} {st a w} :
  op (world st) = (Returns a, w) ->
  call op st = (Ok a, {| world := w; stdout := stdout st |}).
Proof. intros H. unfold call. now rewrite H. Qed.

Lemma call_raises {A} {op : W -> response A * W} {st e w} :
  op (world st) = (Raises e, w) ->
  call op st = (Raise e, {| world := w; stdout := stdout st |}).
Proof. intros H. unfold call. now rewrite H. Qed.

Lemma attach_ok : forall (batch : list Chunk.t) (data : list vec),
  List.length data = List.length batch ->
  exists es,
    attach batch data = Ok es /\
    map Embedded.chunk es = batch /\ map Embedded.embedding es = data.
Proof.
  induction batch as [|c batch IH]; intros [|v data] Hlen;
    try discriminate; cbn [attach].
  - exists []. auto.
  - injection Hlen as Hlen. destruct (IH data Hlen) as (es & -> & Hc & Hv).
    exists (Embedded.mk c v :: es). cbn. now rewrite Hc, Hv.
Qed.

Lemma embed_batches_ok (chunks : list Chunk.t) :
  one_vector_per_text svc ->
  forall cnt m embeddings st,
    map Embedded.chunk embeddings = firstn (100 * m) chunks ->
    exists es st',
      embed_batches svc
        (map (fun k => 0 + Z.of_nat k * embedding_batch_size) (seq m cnt))
        chunks embeddings st = (Ok es, st') /\
      map Embedded.chunk es = firstn (100 * (m + cnt)) chunks.
Proof.
  intros Hsvc. induction cnt as [|cnt IH]; intros m embeddings st Hpre.
  - cbn [seq map embed_batches]. exists embeddings, st.
    split; [reflexivity|]. now rewrite Nat.add_0_r.
  - cbn [seq map embed_batches]. cbv zeta.
    set (i := 0 + Z.of_nat m * embedding_batch_size).
    set (batch := slice chunks i (i + embedding_batch_size)).
    destruct (Hsvc (map Chunk.text batch) (world st)) as (vs & w' & Hcall & Hlen).
    rewrite length_map in Hlen.
    destruct (attach_ok batch vs Hlen) as (new & Hnew & Hchunks & _).
    rewrite (bind_ok (call_returns Hcall)).
    unfold bind at 1. rewrite Hnew.
    assert (Hnext : map Embedded.chunk (embeddings ++ new)
                    = firstn (100 * S m) chunks).
    { rewrite map_app, Hpre, Hchunks. unfold batch, i, embedding_batch_size.
      replace (100 * m)%nat with (Z.to_nat (0 + Z.of_nat m * 100)) by lia.
      rewrite firstn_slice by lia. f_equal. lia. }
    replace (m + S cnt)%nat with (S m + cnt)%nat by lia.
    destruct (i + embedding_batch_size <? len chunks);
      unfold bind at 1; cbn [update ret]; apply IH; exact Hnext.
Qed.

(** C8: when the embedding service returns one vector per text, the
    embedder returns, in the same order, every input chunk extended with
    an embedding: same length, same chunks, same ids position by
    position. *)
Theorem generate_embeddings_preserves_order
    (chunks : list Chunk.t) (st : state W) :
  one_vector_per_text svc ->
  exists es st',
    generate_embeddings svc chunks st = (Ok es, st') /\
    List.length es = List.length chunks /\
    map Embedded.chunk es = chunks /\
    (forall i e c,
        nth_error es i = Some e -> nth_error chunks i = Some c ->
        Embedded.chunk e = c /\ Embedded.id e = Chunk.id c).
Proof.
  intros Hsvc. unfold generate_embeddings, py_range.
  set (cnt := Z.to_nat ((len chunks - 0 + embedding_batch_size - 1)
                        / embedding_batch_size)).
  destruct (embed_batches_ok chunks Hsvc cnt 0 [] st eq_refl)
    as (es & st' & Hrun & Hes).
  assert (Hall : map Embedded.chunk es = chunks).
  { rewrite Hes. apply firstn_all2. unfold cnt, embedding_batch_size, len.
    pose proof (Z.div_mod (Z.of_nat (List.length chunks) - 0 + 100 - 1) 100
                  ltac:(lia)).
    pose proof (Z.mod_pos_bound
                  (Z.of_nat (List.length chunks) - 0 + 100 - 1) 100
                  ltac:(lia)).
    lia. }
  exists es, st'. split; [exact Hrun|]. split; [|split; [exact Hall|]].
  - rewrite <- Hall. now rewrite length_map.
  - intros i e c He Hc.
    pose proof (f_equal (fun l => nth_error l i) Hall) as E. cbv beta in E.
    rewrite nth_error_map, He, Hc in E. cbn in E. injection E as E.
    split; [exact E|]. unfold Embedded.id. now rewrite E.
Qed.

(** A failing embedding request is not handled by the embedder. *)
Lemma generate_embeddings_raises (chunks : list Chunk.t) st e w :
  chunks <> [] ->
  embeddings_create svc
    (map Chunk.text (slice chunks 0 (0 + embedding_batch_size))) (world st)
    = (Raises e, w) ->
  generate_embeddings svc chunks st
    = (Raise e, {| world := w; stdout := stdout st |}).
Proof.
  intros Hne Hcall. unfold generate_embeddings, py_range.
  destruct (Z.to_nat ((len chunks - 0 + embedding_batch_size - 1)
                      / embedding_batch_size)) as [|cnt] eqn:E.
  - exfalso. destruct chunks as [|c chunks]; [congruence|].
    rewrite len_cons in E. pose proof (len_nonneg chunks).
    unfold embedding_batch_size in E.
    assert (1 <= (1 + len chunks - 0 + 100 - 1) / 100)
      by (apply Z.div_le_lower_bound; lia).
    lia.
  - cbn [seq map embed_batches]. cbv zeta.
    change (0 + Z.of_nat 0 * embedding_batch_size) with 0.
    now rewrite (bind_raise (call_raises Hcall)).
Qed.

Lemma generate_embeddings_nil st : generate_embeddings svc [] st = (Ok [], st).
Proof. reflexivity. Qed.

(** ** Indexer and driver *)

Lemma upload_raises (embeddings : list (Embedded.t vec)) index_name st e w :
  pinecone_Index svc index_name (world st) = (Raises e, w) ->
  upload_to_pinecone svc embeddings index_name st
    = (Raise e, {| world := w; stdout := stdout st |}).
Proof.
  intros H. unfold upload_to_pinecone.
  now rewrite (bind_raise (call_raises H)).
Qed.

Lemma extract_raises st e w :
  pdf_read svc pdf_path (world st) = (Raises e, w) ->
  extract_text_from_pdf svc pdf_path st
    = (Raise e, {| world := w; stdout := stdout st |}).
Proof.
  intros H. unfold extract_text_from_pdf.
  now rewrite (bind_raise (call_raises H)).
Qed.

(** The three ways through [delete_all_vectors]. *)
Lemma clear_index_missing index_name st e w :
  pinecone_Index svc index_name (world st) = (Raises e, w) ->
  delete_all_vectors svc index_name st
  = (Ok tt,
     {| world := w;
        stdout := stdout st ++ ["🗑️  Clearing Pinecone index..."%string]
                    ++ clear_report e ++ [EmptyString] |}).
Proof.
  intros H.
  unfold delete_all_vectors, clear_report, bind, try_except, call, print.
  cbn [world stdout]. rewrite H.
  destruct (contains "404" e); cbn [world stdout];
    now rewrite <- !app_assoc.
Qed.

Lemma clear_delete_fails index_name st e w1 w2 :
  pinecone_Index svc index_name (world st) = (Returns tt, w1) ->
  index_delete_all svc index_name w1 = (Raises e, w2) ->
  delete_all_vectors svc index_name st
  = (Ok tt,
     {| world := w2;
        stdout := stdout st ++ ["🗑️  Clearing Pinecone index..."%string]
                    ++ clear_report e ++ [EmptyString] |}).
Proof.
  intros H1 H2.
  unfold delete_all_vectors, clear_report, bind, try_except, call, print.
  cbn [world stdout]. rewrite H1. cbn [world stdout]. rewrite H2.
  destruct (contains "404" e); cbn [world stdout];
    now rewrite <- !app_assoc.
Qed.

Lemma clear_succeeds index_name st w1 w2 :
  pinecone_Index svc index_name (world st) = (Returns tt, w1) ->
  index_delete_all svc index_name w1 = (Returns tt, w2) ->
  delete_all_vectors svc index_name st
  = (Ok tt,
     {| world := sleep svc 3000 w2;
        stdout := stdout st
                    ++ ["🗑️  Clearing Pinecone index..."; "✅ Index cleared";
                        EmptyString]%string |}).
Proof.
  intros H1 H2.
  unfold delete_all_vectors, bind, try_except, call, print, update.
  cbn [world stdout]. rewrite H1. cbn [world stdout]. rewrite H2.
  cbn [world stdout]. now rewrite <- !app_assoc.
Qed.

Lemma delete_all_vectors_returns index_name st :
  exists st', delete_all_vectors svc index_name st = (Ok tt, st').
Proof.
  destruct (pinecone_Index svc index_name (world st)) as [[[]|e] w1] eqn:H1.
  - destruct (index_delete_all svc index_name w1) as [[[]|e] w2] eqn:H2.
    + eexists. eapply clear_succeeds; eauto.
    + eexists. eapply clear_delete_fails; eauto.
  - eexists. eapply clear_index_missing; eauto.
Qed.

Lemma main_body_configured fuel index_name st :
  configured svc (world st) index_name ->
  main_body svc fuel st
  = bind (delete_all_vectors svc index_name)
         (fun _ => stages_after_clear svc fuel index_name) st.
Proof.
  intros (H1 & H2 & H3 & H4). unfold main_body.
  unfold bind at 1, read at 1. unfold bind at 1, read at 1.
  rewrite H1, H2. cbn [orb]. unfold bind at 1, read at 1. rewrite H3.
  destruct index_name; [congruence | reflexivity].
Qed.

Lemma main_body_unconfigured fuel st :
  falsy (getenv svc "OPENAI_API_KEY" (world st)) = true \/
  falsy (getenv svc "PINECONE_API_KEY" (world st)) = true \/
  falsy (getenv svc "PINECONE_INDEX_NAME" (world st)) = true ->
  exists e, main_body svc fuel st = (Raise e, st).
Proof.
  intros H. unfold main_body, bind, read, raise.
  destruct (falsy (getenv svc "OPENAI_API_KEY" (world st))) eqn:E1;
    [eexists; reflexivity|].
  destruct (falsy (getenv svc "PINECONE_API_KEY" (world st))) eqn:E2;
    [eexists; reflexivity|].
  cbn [orb]. destruct H as [H|[H|H]]; try discriminate.
  destruct (getenv svc "PINECONE_INDEX_NAME" (world st)) as [[|a s]|];
    try discriminate; eexists; reflexivity.
Qed.

(** C9: clearing the index never raises: a missing index and any other
    failure of the deletion are reported on standard output and the
    function returns; the driver then goes on with the stages after the
    clearing step.  Any exception of a later stage (a document that
    cannot be read, an index handle that cannot be obtained for the
    upload), like a failed validation of the environment, ends the
    process with status 1. *)
Theorem clear_failure_is_swallowed (index_name : string) (st : state W) :
  (exists st1, delete_all_vectors svc index_name st = (Ok tt, st1)) /\
  (forall e w,
      pinecone_Index svc index_name (world st) = (Raises e, w) ->
      delete_all_vectors svc index_name st
      = (Ok tt,
         {| world := w;
            stdout := stdout st ++ ["🗑️  Clearing Pinecone index..."%string]
                        ++ clear_report e ++ [EmptyString] |})) /\
  (forall e w1 w2,
      pinecone_Index svc index_name (world st) = (Returns tt, w1) ->
      index_delete_all svc index_name w1 = (Raises e, w2) ->
      delete_all_vectors svc index_name st
      = (Ok tt,
         {| world := w2;
            stdout := stdout st ++ ["🗑️  Clearing Pinecone index..."%string]
                        ++ clear_report e ++ [EmptyString] |})) /\
  (forall fuel,
      configured svc (world st) index_name ->
      exists st1,
        delete_all_vectors svc index_name st = (Ok tt, st1) /\
        main_body svc fuel st = stages_after_clear svc fuel index_name st1) /\
  (forall fuel st1 e st2,
      configured svc (world st) index_name ->
      delete_all_vectors svc index_name st = (Ok tt, st1) ->
      stages_after_clear svc fuel index_name st1 = (Raise e, st2) ->
      fst (main svc fuel st) = Exit 1) /\
  (forall fuel e w,
      pdf_read svc pdf_path (world st) = (Raises e, w) ->
      stages_after_clear svc fuel index_name st
      = (Raise e, {| world := w; stdout := stdout st |})) /\
  (forall fuel texts w1 e w2,
      pdf_read svc pdf_path (world st) = (Returns texts, w1) ->
      pages_with_text 0 texts = [] ->
      pinecone_Index svc index_name w1 = (Raises e, w2) ->
      stages_after_clear svc fuel index_name st
      = (Raise e, {| world := w2; stdout := stdout st |})) /\
  (forall fuel,
      falsy (getenv svc "OPENAI_API_KEY" (world st)) = true \/
      falsy (getenv svc "PINECONE_API_KEY" (world st)) = true \/
      falsy (getenv svc "PINECONE_INDEX_NAME" (world st)) = true ->
      fst (main svc fuel st) = Exit 1 /\
      world (snd (main svc fuel st)) = world st).
Proof.
  split; [apply delete_all_vectors_returns|].
  split; [intros e w; apply clear_index_missing|].
  split; [intros e w1 w2; apply clear_delete_fails|].
  split; [|split; [|split; [|split]]].
  - intros fuel Hcfg.
    destruct (delete_all_vectors_returns index_name st) as [st1 H1].
    exists st1. split; [exact H1|].
    rewrite (main_body_configured fuel index_name st Hcfg). now rewrite (bind_ok H1).
  - intros fuel st1 e st2 Hcfg H1 H2. unfold main.
    rewrite (main_body_configured fuel index_name st Hcfg), (bind_ok H1), H2.
    reflexivity.
  - intros fuel e w H. unfold stages_after_clear.
    now rewrite (bind_raise (extract_raises st e w H)).
  - intros fuel texts w1 e w2 Hread Hpages Hindex.
    unfold stages_after_clear, extract_text_from_pdf.
    rewrite (bind_ok (bind_ok (call_returns Hread))), Hpages.
    unfold bind at 1, chunk_stage. rewrite create_chunks_no_pages.
    unfold bind at 1. rewrite generate_embeddings_nil.
    now rewrite (upload_raises [] index_name
                   {| world := w1; stdout := stdout st |} e w2 Hindex).
  - intros fuel H.
    destruct (main_body_unconfigured fuel st H) as [e He].
    unfold main. rewrite He. cbn. auto.
Qed.

End StageProperties.

(** ** The properties at concrete inputs *)

Lemma emitted_chunks_exceed_100_witness :
  let page := Page.mk 1 (str "Page 1") in
  let c := steps (py := ascii_text) 1 (entry [page] 0) in
  (exists c', step (py := ascii_text) c = Some c' /\ chunks c' = chunks c /\
              chunk_counter c' = chunk_counter c) /\
  chunks c = [] /\ chunk_counter c = 0%nat.
Proof.
  cbv zeta.
  pose proof (@emitted_chunks_exceed_100 ascii_text
                [Page.mk 1 (str "Page 1")] 0 1) as H.
  cbv zeta in H. destruct H as (_ & H2 & _ & H3). split.
  - apply (H2 (Page.mk 1 (str "Page 1")) 0 []).
    + reflexivity.
    + vm_compute. reflexivity.
    + vm_compute. discriminate.
  - apply H3. constructor; [|constructor]. vm_compute. discriminate.
Defined.

Lemma chunk_ids_unique_increasing_witness :
  exists a b,
    chunk_number (Chunk.id (new_chunk (py := ascii_text) 0 stall_text 1))
      = Some a /\
    chunk_number (Chunk.id (new_chunk (py := ascii_text) 2 stall_text 1))
      = Some b /\
    (a < b)%nat.
Proof.
  pose proof (@chunk_ids_unique_increasing ascii_text
                [Page.mk 1 stall_text] 5) as H.
  cbv zeta in H. destruct H as (_ & _ & _ & H).
  apply (H 0%nat 2%nat).
  - vm_compute. reflexivity.
  - vm_compute. reflexivity.
  - lia.
Defined.

(** C6 as stated fails: the page has 201 characters, not more than
    800, and [create_chunks] returns no chunk list for it, whatever the
    number of transitions allowed. *)
Lemma ab_page_counterexample :
  len ab_text = 201 /\
  ~ (800 < len ab_text) /\
  (forall (py : PyText) fuel, create_chunks fuel [Page.mk 1 ab_text] 0 = None) /\
  ~ (exists (py : PyText) fuel cs k,
        create_chunks fuel [Page.mk 1 ab_text] 0 = Some (cs, k) /\
        (2 <= List.length cs)%nat).
Proof.
  assert (Hdiv : forall (py : PyText) fuel,
             create_chunks fuel [Page.mk 1 ab_text] 0 = None).
  { intros py fuel. apply create_chunks_diverges. constructor. discriminate. }
  split; [vm_compute; reflexivity|]. split; [vm_compute; discriminate|].
  split; [exact Hdiv|].
  intros (py & fuel & cs & k & H & _). rewrite Hdiv in H. discriminate.
Qed.

Lemma ab_page_first_two_chunks_witness :
  exists c0 c1 more,
    chunks (steps (py := ascii_text) 3 (entry [Page.mk 1 ab_text] 0))
      = c0 :: c1 :: more /\
    Chunk.text c0 = slice ab_text 0 201 /\
    Chunk.text c1 = slice ab_text 51 201.
Proof.
  destruct (@ab_page_first_two_chunks ascii_text 3 ltac:(lia))
    as (c0 & c1 & more & H & _ & H0 & _ & _ & H1 & _).
  exists c0, c1, more. auto.
Defined.

(** C7, on a page of 150 characters of prose in which no pattern
    occurs: every iteration of the loop emits the whole page again under
    the next id, classified general/reference/1 on page 1; the cursor
    stays at 0, the chunk list grows without bound and [create_chunks]
    does not return. *)
Theorem prose_page_emits_without_end :
  let page := Page.mk 1 prose_text in
  len prose_text = 150 /\
  Forall (fun r => applies r (ascii_lower prose_text) = false) rule_table /\
  (forall (py : PyText) n,
      pos (steps (S n) (entry [page] 0)) = AtWhile page 0 [] /\
      List.length (chunks (steps (S n) (entry [page] 0))) = n) /\
  (forall (py : PyText) fuel, create_chunks fuel [page] 0 = None) /\
  chunks (steps (py := ascii_text) 3 (entry [page] 0))
    = [ Chunk.mk "chunk-0" prose_text "general" "reference" 1 1;
        Chunk.mk "chunk-1" prose_text "general" "reference" 1 1 ]%string.
Proof.
  cbv zeta. split; [vm_compute; reflexivity|]. split; [|split; [|split]].
  - unfold rule_table.
    repeat (constructor; [vm_compute; reflexivity|]). constructor.
  - intros py n. apply prose_page_cursor_stalls.
  - intros py fuel. apply prose_page_cursor_stalls.
  - vm_compute. reflexivity.
Qed.

Lemma generate_embeddings_preserves_order_witness :
  exists es st',
    generate_embeddings offline_services sample_chunks initial_state
      = (Ok es, st') /\
    map Embedded.chunk es = sample_chunks /\
    map (@Embedded.id _) es = ["chunk-0"; "chunk-1"]%string.
Proof.
  destruct (@generate_embeddings_preserves_order unit (list Z)
              offline_services sample_chunks initial_state)
    as (es & st' & H1 & _ & H3 & _).
  { intros texts w. exists (map (fun t => [len t]) texts), w.
    split; [reflexivity | apply length_map]. }
  exists es, st'. split; [exact H1|]. split; [exact H3|].
  unfold Embedded.id. rewrite <- (map_map Embedded.chunk Chunk.id), H3.
  reflexivity.
Defined.

Lemma clear_failure_is_swallowed_witness :
  delete_all_vectors offline_services "set" initial_state
  = (Ok tt,
     {| world := tt;
        stdout := ["🗑️  Clearing Pinecone index...";
                   "ℹ️  Index already empty"; EmptyString]%string |}) /\
  fst (main (py := ascii_text) offline_services 0 initial_state) = Exit 1 /\
  delete_all_vectors failing_delete_services "set" initial_state
  = (Ok tt,
     {| world := tt;
        stdout := ["🗑️  Clearing Pinecone index...";
                   "⚠️  Could not delete: (500) Reason: Internal Server Error";
                   "✅ Continuing anyway (will overwrite existing vectors)";
                   EmptyString]%string |}) /\
  fst (main (py := ascii_text) unset_services 0 initial_state) = Exit 1.
Proof.
  destruct (@clear_failure_is_swallowed ascii_text unit (list Z)
              offline_services "set"%string initial_state)
    as (_ & H2 & _ & _ & H5 & _).
  assert (Hclear : delete_all_vectors offline_services "set" initial_state
                   = (Ok tt,
                      {| world := tt;
                         stdout := ["🗑️  Clearing Pinecone index...";
                                    "ℹ️  Index already empty";
                                    EmptyString]%string |})).
  { apply (H2 "(404) Reason: Not Found"%string tt). reflexivity. }
  split; [exact Hclear|]. split; [|split].
  - eapply (H5 0%nat).
    + repeat split; try reflexivity. discriminate.
    + exact Hclear.
    + vm_compute. reflexivity.
  - destruct (@clear_failure_is_swallowed ascii_text unit (list Z)
                failing_delete_services "set"%string initial_state)
      as (_ & _ & H3 & _).
    apply (H3 "(500) Reason: Internal Server Error"%string tt tt);
      reflexivity.
  - destruct (@clear_failure_is_swallowed ascii_text unit (list Z)
                unset_services "set"%string initial_state)
      as (_ & _ & _ & _ & _ & _ & _ & H8).
    apply (H8 0%nat). left. reflexivity.
Defined.

(* ===================================================================== *)
(** * Part III: further properties of the code                            *)
(* ===================================================================== *)

(** ** Chunker *)

Lemma rstrip_prefix s : exists b, s = rstrip s ++ b.
Proof.
  unfold rstrip. destruct (lstrip_suffix (rev s)) as [a H].
  exists (rev a). rewrite <- rev_app_distr, <- H. now rewrite rev_involutive.
Qed.

Lemma strip_piece s : exists a b, s = a ++ strip s ++ b.
Proof.
  unfold strip. destruct (lstrip_suffix s) as [a Ha].
  destruct (rstrip_prefix (lstrip s)) as [b Hb].
  exists a, b. now rewrite <- Hb.
Qed.

Lemma window_piece text start :
  exists a b, text = a ++ window text start ++ b.
Proof.
  destruct (window_is_slice text start) as [j ->].
  destruct (slice_infix text start j) as (a & b & H).
  destruct (strip_piece (slice text start j)) as (a' & b' & H').
  exists (a ++ a'), (b' ++ b).
  rewrite H at 1. rewrite H' at 1. now rewrite <- !app_assoc.
Qed.

Lemma slice_len_le {A} (s : list A) i j :
  i <= j -> len (slice s i j) <= j - i.
Proof.
  intros Hij. pose proof (len_nonneg s). unfold slice, len in *.
  rewrite length_firstn, length_skipn. unfold adjust_index.
  destruct (Z.ltb_spec i 0); destruct (Z.ltb_spec j 0); lia.
Qed.

(** No window is longer than the chunk size, wherever the cursor is. *)
Lemma window_len_chunk_size text start :
  len (window text start) <= chunk_size.
Proof.
  unfold window. cbv zeta.
  set (e := Z.min (start + chunk_size) (len text)).
  set (tentative := slice text start e).
  assert (Ht : len tentative <= chunk_size).
  { pose proof (len_nonneg text). unfold tentative, e, slice, len, chunk_size in *.
    rewrite length_firstn, length_skipn. unfold adjust_index.
    destruct (Z.ltb_spec start 0);
      destruct (Z.ltb_spec (Z.min (start + 800)
                              (Z.of_nat (List.length text))) 0); lia. }
  destruct (e <? len text).
  - set (bp := Z.max (rfind period tentative) (rfind newline tentative)).
    destruct (Z.ltb_spec break_threshold bp) as [Hbp|Hbp].
    + assert (Hb : bp < len tentative).
      { pose proof (rfind_range period tentative).
        pose proof (rfind_range newline tentative). unfold bp. lia. }
      pose proof (strip_len (slice text start (start + bp + 1))).
      pose proof (@slice_len_le _ text start (start + bp + 1)).
      unfold break_threshold in Hbp. lia.
    + pose proof (strip_len tentative). lia.
  - pose proof (strip_len tentative). lia.
Qed.

Section ChunkerFurther.

Context {py : PyText}.

Lemma step_taken_from pages c c' :
  stays_within pages c ->
  Forall (taken_from pages) (chunks c) ->
  step c = Some c' ->
  stays_within pages c' /\ Forall (taken_from pages) (chunks c').
Proof.
  unfold stays_within, step.
  destruct (pos c) as [[|page rest]|page start rest]; try discriminate.
  - intros Hin Hall [= <-]. cbn [pos chunks]. split; [|exact Hall].
    split; [apply Hin; now left | intros x Hx; apply Hin; now right].
  - intros [Hp Hrest] Hall. cbv zeta.
    destruct (start <? len (Page.text page)).
    + destruct (100 <? len (window (Page.text page) start));
        intros [= <-]; cbn [pos chunks]; (split; [now split|]);
        [|exact Hall].
      apply Forall_app. split; [exact Hall|]. constructor; [|constructor].
      exists page. cbn [new_chunk Chunk.page Chunk.text Chunk.topic Chunk.task
                         Chunk.role_min Metadata.page].
      split; [exact Hp|]. split.
      { unfold detect_metadata.
        destruct (if re_search pat_attendance _ then _ else _) as [[? ?] ?].
        reflexivity. }
      split; [apply window_piece|]. split; [reflexivity|].
      apply window_len_chunk_size.
    + intros [= <-]. cbn [pos chunks]. now split.
Qed.

(** X2: every chunk emitted during a run was cut from one page of the
    input: it carries that page's number, its text is a contiguous piece
    of that page's text (chunks never span two pages) of at most 800
    characters, and its topic, task and role_min are the classification
    of its own text. *)
Theorem chunks_taken_from_pages (pages : list Page.t) (counter n : nat) :
  Forall (taken_from pages) (chunks (steps n (entry pages counter))).
Proof.
  assert (H : forall k c,
             stays_within pages c -> Forall (taken_from pages) (chunks c) ->
             Forall (taken_from pages) (chunks (steps k c))).
  { induction k as [|k IH]; intros c Hw Hall; cbn [steps]; [exact Hall|].
    destruct (step c) as [c'|] eqn:E; [|exact Hall].
    destruct (step_taken_from pages c c' Hw Hall E). now apply IH. }
  apply H; [|constructor].
  unfold stays_within, entry. cbn [pos]. intros x Hx. exact Hx.
Qed.

(** X1: [create_chunks] returns exactly when no page has any character
    of text, and what it then returns is the empty list with the counter
    unchanged; with one character of text on any page no amount of fuel
    makes it return. *)
Theorem create_chunks_returns_iff (pages : list Page.t) (counter : nat) :
  ((exists fuel r, create_chunks fuel pages counter = Some r) <->
   Forall (fun p => Page.text p = []) pages) /\
  (forall fuel r,
      create_chunks fuel pages counter = Some r -> r = ([], counter)) /\
  (Exists (fun p => Page.text p <> []) pages ->
   forall fuel, create_chunks fuel pages counter = None).
Proof.
  assert (Hdec : forall p : Page.t, {Page.text p = []} + {Page.text p <> []}).
  { intros p. destruct (Page.text p); [now left | right; discriminate]. }
  assert (Hret : forall fuel r,
             create_chunks fuel pages counter = Some r ->
             Forall (fun p => Page.text p = []) pages).
  { intros fuel r H. destruct (Forall_Exists_dec _ Hdec pages) as [Hall|Hex];
      [exact Hall|].
    rewrite (create_chunks_diverges pages Hex) in H. discriminate. }
  split; [split|split].
  - intros (fuel & r & H). eapply Hret; eauto.
  - intros Hall. exists (2 * List.length pages)%nat, ([], counter).
    now apply create_chunks_empty_pages.
  - intros fuel [cs k] H. pose proof (Hret _ _ H) as Hall.
    unfold create_chunks in H.
    destruct (run_steps fuel _ _ _ H) as (n & -> & ->).
    assert (Hshort : only_short_pages (entry pages counter)).
    { unfold only_short_pages, entry. cbn [pos].
      eapply Forall_impl; [|exact Hall].
      intros p Hp. unfold short_page. rewrite Hp. vm_compute. discriminate. }
    destruct (steps_short_pages n _ Hshort) as [-> ->]. reflexivity.
  - intros Hex fuel. now apply create_chunks_diverges.
Qed.

(** X3: a page of at most 800 characters whose trimmed text has more
    than 100 is first emitted whole: the first chunk of the run is the
    trimmed page text, under the id of the current counter. *)
Theorem short_page_first_chunk (page : Page.t) (rest : list Page.t)
    (counter : nat) :
  len (Page.text page) <= chunk_size ->
  100 < len (strip (Page.text page)) ->
  chunks (steps 2 (entry (page :: rest) counter))
    = [new_chunk counter (strip (Page.text page)) (Page.page_num page)] /\
  chunk_counter (steps 2 (entry (page :: rest) counter)) = S counter.
Proof.
  intros Hlen Hlong.
  assert (Hw : window (Page.text page) 0 = strip (Page.text page)).
  { unfold window. cbv zeta. pose proof (len_nonneg (Page.text page)).
    replace (Z.min (0 + chunk_size) (len (Page.text page)))
      with (len (Page.text page)) by (unfold chunk_size in *; lia).
    rewrite Z.ltb_irrefl, slice_nonneg by lia.
    rewrite Z.min_id, (Z.min_l 0) by lia.
    change (Z.to_nat 0) with O. cbn [skipn]. rewrite Z.sub_0_r.
    unfold len. now rewrite Nat2Z.id, firstn_all. }
  assert (Hpos : 0 < len (Page.text page)).
  { pose proof (strip_len (Page.text page)). lia. }
  rewrite (steps_S 1 (entry (page :: rest) counter)
             {| pos := AtWhile page 0 rest; chunks := [];
                chunk_counter := counter |} eq_refl).
  rewrite (steps_S 0 _ _
             (step_in_page {| pos := AtWhile page 0 rest; chunks := [];
                              chunk_counter := counter |}
                page 0 rest eq_refl Hpos)).
  cbn [steps chunks chunk_counter]. rewrite Hw.
  apply Z.ltb_lt in Hlong. rewrite Hlong. auto.
Qed.

End ChunkerFurther.

Lemma rfind_absent c s : ~ In c s -> rfind c s = -1.
Proof.
  intros Hn. destruct (rfind_spec c s) as [[H _]|(a & b & -> & _)];
    [exact H|].
  exfalso. apply Hn, in_or_app. right. now left.
Qed.

Lemma lstrip_no_space s :
  Forall (fun c => is_space c = false) s -> lstrip s = s.
Proof.
  intros H. destruct H as [|c s Hc _]; [reflexivity|].
  now apply lstrip_fixed.
Qed.

Lemma strip_no_space s :
  Forall (fun c => is_space c = false) s -> strip s = s.
Proof.
  intros H. unfold strip, rstrip. rewrite (lstrip_no_space s H).
  rewrite lstrip_no_space by (now apply Forall_rev).
  apply rev_involutive.
Qed.

Lemma strip_snoc_period a : strip (a ++ [period]) = lstrip a ++ [period].
Proof.
  unfold strip, rstrip.
  rewrite (lstrip_snoc a period eq_refl), rev_app_distr.
  cbn [rev app]. rewrite (lstrip_fixed period _ eq_refl).
  cbn [rev]. now rewrite rev_involutive.
Qed.

Lemma slice_inside {A} (s : list A) i j :
  0 <= i <= j -> j <= len s ->
  slice s i j = firstn (Z.to_nat (j - i)) (skipn (Z.to_nat i) s) /\
  len (slice s i j) = j - i.
Proof.
  intros Hij Hj. rewrite slice_nonneg by lia.
  rewrite !Z.min_l by lia. split; [reflexivity|].
  unfold len in *. rewrite length_firstn, length_skipn. lia.
Qed.

(** X4: on a text without whitespace and without a period, a window
    that fits before the end of the text has exactly 800 characters and
    is not trimmed, and the cursor advances by 800 - 150 = 650; the next
    such window starts with the last 150 characters of this one. *)
Theorem window_plain_text (text : pystr) (start : Z) :
  plain text ->
  0 <= start ->
  start + chunk_size <= len text ->
  window text start = slice text start (start + chunk_size) /\
  len (window text start) = chunk_size /\
  start + (len (window text start) - chunk_overlap) = start + 650 /\
  (start + 650 + chunk_size <= len text ->
   firstn 150 (window text (start + 650)) = skipn 650 (window text start)).
Proof.
  intros Hplain H0 Hfit.
  assert (Hw : forall s, 0 <= s -> s + chunk_size <= len text ->
             window text s = slice text s (s + chunk_size)).
  { intros s Hs Hsfit. unfold window. cbv zeta.
    rewrite (Z.min_l (s + chunk_size)) by lia.
    set (tentative := slice text s (s + chunk_size)).
    assert (Ht : plain tentative).
    { destruct (slice_infix text s (s + chunk_size)) as (a & b & H).
      unfold plain in Hplain. rewrite H in Hplain.
      apply Forall_app in Hplain as [_ Hplain].
      now apply Forall_app in Hplain as [Hplain _]. }
    assert (Hnp : rfind period tentative = -1).
    { apply rfind_absent. intros Hin.
      unfold plain in Ht. rewrite Forall_forall in Ht.
      now destruct (Ht _ Hin). }
    assert (Hnn : rfind newline tentative = -1).
    { apply rfind_absent. intros Hin.
      unfold plain in Ht. rewrite Forall_forall in Ht.
      destruct (Ht _ Hin) as [Hsp _]. discriminate. }
    rewrite Hnp, Hnn. cbn [Z.max Z.compare Z.ltb break_threshold].
    assert (Hs' : strip tentative = tentative).
    { apply strip_no_space. eapply Forall_impl; [|exact Ht]. now intros c []. }
    destruct (s + chunk_size <? len text); exact Hs'. }
  rewrite (Hw start H0 Hfit).
  destruct (@slice_inside _ text start (start + chunk_size)) as [Hs Hl];
    [unfold chunk_size; lia | lia |].
  split; [reflexivity|]. split; [rewrite Hl; lia|].
  split; [rewrite Hl; unfold chunk_size, chunk_overlap; lia|].
  intros Hnext. rewrite (Hw (start + 650)) by lia. rewrite Hs.
  destruct (@slice_inside _ text (start + 650) (start + 650 + chunk_size))
    as [Hs2 _]; [unfold chunk_size; lia | lia |].
  rewrite Hs2, firstn_firstn, skipn_firstn_comm, skipn_skipn.
  unfold chunk_size.
  replace (start + 650 + 800 - (start + 650)) with 800 by lia.
  replace (start + 800 - start) with 800 by lia.
  replace (Z.to_nat (start + 650)) with (650 + Z.to_nat start)%nat by lia.
  reflexivity.
Qed.

(** X5: when a window that stops before the end of the text has its
    last period beyond position 560 and after its last newline, the
    chunk text ends with that period: it is the part of the window up to
    and including the period, trimmed on the left. *)
Theorem window_breaks_at_period (text : pystr) (start : Z) :
  let tentative := slice text start (start + chunk_size) in
  0 <= start ->
  start + chunk_size < len text ->
  break_threshold < rfind period tentative ->
  rfind newline tentative < rfind period tentative ->
  exists a b,
    tentative = a ++ [period] ++ b /\
    ~ In period b /\
    len a = rfind period tentative /\
    window text start = lstrip a ++ [period].
Proof.
  intros tentative H0 Hfit Hbp Hnl.
  rewrite (window_refines_spec text start H0). unfold spec_window. cbv zeta.
  rewrite (Z.min_l (start + chunk_size)) by lia. fold tentative.
  destruct (Z.leb_spec (len text) (start + chunk_size)) as [?|_]; [lia|].
  rewrite (Z.max_l (rfind period tentative)) by lia.
  unfold break_threshold, chunk_size in *.
  destruct (Z.ltb_spec (7 * 800) (10 * rfind period tentative)); [|lia].
  cbn [negb andb].
  destruct (rfind_spec period tentative)
    as [[Hnone _]|(a & b & Ht & Hb & Ha)]; [lia|].
  exists a, b. split; [exact Ht|]. split; [exact Hb|].
  split; [now rewrite Ha|].
  rewrite Ha, Ht.
  replace (Z.to_nat (len a + 1)) with (List.length a + 1)%nat
    by (unfold len; lia).
  rewrite firstn_app, firstn_all2 by lia.
  replace (List.length a + 1 - List.length a)%nat with 1%nat by lia.
  cbn [firstn]. apply strip_snoc_period.
Qed.

(** ** Reading the document *)

Lemma pages_with_text_spec texts : forall k p,
  In p (pages_with_text k texts) <->
  exists i,
    nth_error texts i = Some (Page.text p) /\
    Page.page_num p = k + Z.of_nat i + 1 /\
    strip (Page.text p) <> [].
Proof.
  induction texts as [|t texts IH]; intros k p; cbn [pages_with_text].
  - split; [intros [] | intros ([|i] & H & _); discriminate].
  - assert (Htail : In p (pages_with_text (k + 1) texts) <->
                    exists i, nth_error (t :: texts) (S i) = Some (Page.text p) /\
                              Page.page_num p = k + Z.of_nat (S i) + 1 /\
                              strip (Page.text p) <> []).
    { rewrite IH. split; intros (i & H1 & H2 & H3); exists i;
        (split; [exact H1|]); (split; [lia | exact H3]). }
    destruct (strip t) as [|c s] eqn:Et.
    + rewrite Htail. split.
      * intros (i & H). exists (S i). exact H.
      * intros ([|i] & H1 & H2 & H3); [|exists i; auto].
        cbn in H1. injection H1 as ->. congruence.
    + cbn [In]. rewrite Htail. split.
      * intros [<-|(i & H)]; [|exists (S i); exact H].
        exists O. cbn [nth_error Page.text Page.page_num].
        split; [reflexivity|]. split; [lia|]. rewrite Et. discriminate.
      * intros ([|i] & H1 & H2 & H3); [left | right; exists i; auto].
        cbn in H1. injection H1 as H1. destruct p as [n txt].
        cbn [Page.text Page.page_num] in *. subst. f_equal. lia.
Qed.

Lemma pages_with_text_sorted texts : forall k,
  Forall (fun p => k < Page.page_num p) (pages_with_text k texts) /\
  StronglySorted Z.lt (map Page.page_num (pages_with_text k texts)).
Proof.
  induction texts as [|t texts IH]; intros k; cbn [pages_with_text].
  - split; constructor.
  - destruct (IH (k + 1)) as [Hgt Hs].
    assert (Hgt' : Forall (fun p => k < Page.page_num p)
                     (pages_with_text (k + 1) texts)).
    { eapply Forall_impl; [|exact Hgt]. intros p Hp. cbv beta in Hp. lia. }
    destruct (strip t); [now split|]. split.
    + constructor; [cbn; lia | exact Hgt'].
    + cbn [map]. constructor; [exact Hs|].
      apply Forall_map. exact Hgt.
Qed.

Lemma pages_with_text_nonempty texts : forall k,
  Forall (fun p => Page.text p <> []) (pages_with_text k texts).
Proof.
  intros k. apply Forall_forall. intros p Hp.
  apply pages_with_text_spec in Hp as (_ & _ & _ & H).
  intros E. rewrite E in H. now apply H.
Qed.

Lemma pages_with_text_some texts : forall k,
  Exists (fun t => strip t <> []) texts ->
  Exists (fun p => Page.text p <> []) (pages_with_text k texts).
Proof.
  intros k Hex. apply Exists_exists in Hex as (t & Hin & Ht).
  apply In_nth_error in Hin as [i Hi].
  assert (Hp : In (Page.mk (k + Z.of_nat i + 1) t) (pages_with_text k texts)).
  { apply pages_with_text_spec. exists i. auto. }
  apply Exists_exists. exists (Page.mk (k + Z.of_nat i + 1) t).
  split; [exact Hp|]. cbn. intros E. rewrite E in Ht. now apply Ht.
Qed.

Lemma pages_with_text_none texts : forall k,
  Forall (fun t => strip t = []) texts -> pages_with_text k texts = [].
Proof.
  induction texts as [|t texts IH]; intros k H; cbn [pages_with_text];
    [reflexivity|].
  inversion H as [|? ? Ht Hrest]; subst. rewrite Ht. now apply IH.
Qed.

Lemma results_in_eq {W A} (m : M W A) (st : state W) (r : outcome A)
    (w : W) (out : list string) :
  m st = (r, {| world := w; stdout := out |}) -> results_in m st r w.
Proof. intros H. unfold results_in. now rewrite H. Qed.

Section StagesFurther.

Context {py : PyText}.
Variables W vec : Type.
Variable svc : services W vec.

(** X7: when the document can be read, [extract_text_from_pdf] returns
    exactly the pages whose text is not blank, each with its text
    unchanged and its 1-based position in the document as page number,
    in increasing page order; no returned page has an empty text. *)
Theorem extract_text_from_pdf_pages (path : string) (st : state W)
    (texts : list pystr) (w : W) :
  pdf_read svc path (world st) = (Returns texts, w) ->
  exists pages,
    results_in (extract_text_from_pdf svc path) st (Ok pages) w /\
    (forall p,
        In p pages <->
        exists i,
          nth_error texts i = Some (Page.text p) /\
          Page.page_num p = Z.of_nat i + 1 /\
          strip (Page.text p) <> []) /\
    StronglySorted Z.lt (map Page.page_num pages) /\
    Forall (fun p => Page.text p <> []) pages.
Proof.
  intros H. exists (pages_with_text 0 texts). split; [|split; [|split]].
  - apply results_in_eq with (out := stdout st).
    unfold extract_text_from_pdf.
    now rewrite (bind_ok W (call_returns W H)).
  - intros p. rewrite pages_with_text_spec.
    split; intros (i & H1 & H2 & H3); exists i; repeat split; auto; lia.
  - apply pages_with_text_sorted.
  - apply pages_with_text_nonempty.
Qed.

(** X16: with a valid environment and a readable document in which some
    page has text that is not blank, [main] never completes: whatever
    the fuel, the run is still inside [create_chunks], and the services
    are left as the reading of the document left them: neither the
    embedding service nor the index is reached after the clearing
    step. *)
Theorem main_hangs_on_text (fuel : nat) (index_name : string)
    (st st1 : state W) (texts : list pystr) (w2 : W) :
  configured svc (world st) index_name ->
  delete_all_vectors svc index_name st = (Ok tt, st1) ->
  pdf_read svc pdf_path (world st1) = (Returns texts, w2) ->
  Exists (fun t => strip t <> []) texts ->
  fst (main svc fuel st) = Hangs /\ world (snd (main svc fuel st)) = w2.
Proof.
  intros Hcfg Hclear Hread Hex. unfold main.
  rewrite (main_body_configured W vec svc fuel index_name st Hcfg).
  rewrite (bind_ok W Hclear). unfold stages_after_clear, extract_text_from_pdf.
  rewrite (bind_ok W (bind_ok W (call_returns W Hread))).
  unfold bind at 1, chunk_stage.
  rewrite (create_chunks_diverges _ (pages_with_text_some texts 0 Hex)).
  split; reflexivity.
Qed.

(** X17: with a valid environment, a readable document without any text
    and an index handle that can be obtained, [main] returns normally:
    it stores nothing, and after the clearing step the services are
    touched only by the reading of the document and the request for the
    index handle. *)
Theorem main_returns_without_text (fuel : nat) (index_name : string)
    (st st1 : state W) (texts : list pystr) (w2 w3 : W) :
  configured svc (world st) index_name ->
  delete_all_vectors svc index_name st = (Ok tt, st1) ->
  pdf_read svc pdf_path (world st1) = (Returns texts, w2) ->
  Forall (fun t => strip t = []) texts ->
  pinecone_Index svc index_name w2 = (Returns tt, w3) ->
  fst (main svc fuel st) = Returned /\ world (snd (main svc fuel st)) = w3.
Proof.
  intros Hcfg Hclear Hread Hblank Hindex.
  assert (Hrun : main_body svc fuel st
                 = (Ok tt, {| world := w3; stdout := stdout st1 |})).
  { rewrite (main_body_configured W vec svc fuel index_name st Hcfg).
    rewrite (bind_ok W Hclear).
    unfold stages_after_clear, extract_text_from_pdf.
    rewrite (bind_ok W (bind_ok W (call_returns W Hread))).
    rewrite (pages_with_text_none texts 0 Hblank).
    unfold bind at 1, chunk_stage. rewrite create_chunks_no_pages.
    unfold bind at 1. rewrite generate_embeddings_nil.
    unfold upload_to_pinecone, bind, call. cbn [world stdout].
    now rewrite Hindex. }
  unfold main. rewrite Hrun. split; reflexivity.
Qed.

(** X15: when both calls of the clearing step return, the function
    reports that the index was cleared and then waits 3000 ms for the
    deletion to propagate; nothing else is printed. *)
Theorem delete_all_vectors_success (index_name : string) (st : state W)
    (w1 w2 : W) :
  pinecone_Index svc index_name (world st) = (Returns tt, w1) ->
  index_delete_all svc index_name w1 = (Returns tt, w2) ->
  delete_all_vectors svc index_name st
  = (Ok tt,
     {| world := sleep svc 3000 w2;
        stdout := stdout st
                    ++ ["🗑️  Clearing Pinecone index..."; "✅ Index cleared";
                        EmptyString]%string |}).
Proof.
  intros H1 H2.
  unfold delete_all_vectors, bind, try_except, call, print, update.
  cbn [world stdout]. rewrite H1. cbn [world stdout]. rewrite H2.
  cbn [world stdout]. now rewrite <- !app_assoc.
Qed.

End StagesFurther.

(** ** Batching *)

Lemma range_count_bounds n size :
  0 < size -> 0 <= n ->
  let cnt := (n - 0 + size - 1) / size in
  0 <= cnt /\ cnt * size - size < n <= cnt * size.
Proof.
  intros Hs Hn cnt.
  pose proof (Z.div_mod (n - 0 + size - 1) size ltac:(lia)) as Hdm.
  pose proof (Z.mod_pos_bound (n - 0 + size - 1) size Hs) as Hb.
  fold cnt in Hdm.
  assert (0 <= cnt) by (apply Z.div_pos; lia).
  split; [assumption|]. nia.
Qed.

Lemma batches_tile_from {A} (s : list A) size :
  0 < size ->
  forall cnt m,
    firstn (Z.to_nat (Z.of_nat m * size)) s
      ++ List.concat (map (fun i => slice s i (i + size))
                     (map (fun k => 0 + Z.of_nat k * size) (seq m cnt)))
    = firstn (Z.to_nat (Z.of_nat (m + cnt) * size)) s.
Proof.
  intros Hs. induction cnt as [|cnt IH]; intros m; cbn [seq map List.concat].
  - now rewrite app_nil_r, Nat.add_0_r.
  - rewrite app_assoc. cbn [Z.add].
    replace (0 + Z.of_nat m * size) with (Z.of_nat m * size) by lia.
    rewrite firstn_slice by nia.
    replace (Z.of_nat m * size + size) with (Z.of_nat (S m) * size) by lia.
    rewrite IH. f_equal. f_equal. lia.
Qed.

(** The batches of a list are its consecutive pieces: together they are
    the list, and each has between 1 and [size] elements. *)
Lemma batches_concat {A} (s : list A) size :
  0 < size -> List.concat (batches s size) = s.
Proof.
  intros Hs. unfold batches, py_range.
  pose proof (batches_tile_from s size Hs
                (Z.to_nat ((len s - 0 + size - 1) / size)) 0) as H.
  cbn [Z.of_nat Z.mul Z.to_nat firstn app] in H. rewrite H.
  destruct (range_count_bounds (len s) size Hs (len_nonneg s)) as [H0 Hb].
  apply firstn_all2. unfold len in *. cbn [Nat.add]. lia.
Qed.

Lemma batches_sizes {A} (s : list A) size :
  0 < size -> Forall (fun b => 0 < len b <= size) (batches s size).
Proof.
  intros Hs. unfold batches, py_range. rewrite map_map.
  apply Forall_map, Forall_forall. intros k Hk. apply in_seq in Hk.
  destruct (range_count_bounds (len s) size Hs (len_nonneg s)) as [H0 Hb].
  assert (Hlt : Z.of_nat k * size < len s) by nia.
  rewrite slice_nonneg by nia.
  rewrite (Z.min_l (0 + Z.of_nat k * size)) by lia.
  unfold len in *. rewrite length_firstn, length_skipn. lia.
Qed.

Lemma pauses_between_batches (n size ms : Z) :
  0 < size -> 0 <= n ->
  flat_map (fun i => if i + size <? n then [ms] else [])
           (py_range 0 n size)
  = repeat ms (Z.to_nat ((n - 0 + size - 1) / size) - 1).
Proof.
  intros Hs Hn. unfold py_range.
  destruct (range_count_bounds n size Hs Hn) as [H0 Hb].
  set (cnt := Z.to_nat ((n - 0 + size - 1) / size)) in *.
  assert (Hcnt : Z.of_nat cnt = (n - 0 + size - 1) / size)
    by (unfold cnt; lia).
  rewrite <- Hcnt in Hb.
  assert (H : forall c m, (m + c = cnt)%nat ->
             flat_map (fun i : Z => if i + size <? n then [ms] else [])
               (map (fun k => 0 + Z.of_nat k * size) (seq m c))
             = repeat ms (c - 1)).
  { induction c as [|c IH]; intros m Hm; cbn [seq map flat_map];
      [reflexivity|].
    rewrite (IH (S m)) by lia.
    destruct (Z.ltb_spec (0 + Z.of_nat m * size + size) n) as [Hlt|Hge].
    - destruct c as [|c]; [nia|]. cbn [Nat.sub app repeat].
      now rewrite Nat.sub_0_r.
    - destruct c as [|c]; [reflexivity | nia]. }
  now apply (H cnt O).
Qed.

Section EmbedderFurther.

Variables W vec : Type.
Variable svc : services W vec.

Lemma attach_own_text (f : pystr -> vec) (batch : list Chunk.t) :
  attach batch (map f (map Chunk.text batch))
  = Ok (map (with_vector f) batch).
Proof.
  induction batch as [|c batch IH]; cbn [map attach]; [reflexivity|].
  now rewrite IH.
Qed.

Lemma attach_fewer : forall (data : list vec) (batch : list Chunk.t),
  (List.length data <= List.length batch)%nat ->
  exists es,
    attach batch data = Ok es /\
    map Embedded.chunk es = firstn (List.length data) batch /\
    map Embedded.embedding es = data.
Proof.
  induction data as [|v data IH]; intros batch Hlen.
  - exists []. destruct batch; cbn; auto.
  - destruct batch as [|c batch]; [cbn in Hlen; lia|]. cbn [attach].
    destruct (IH batch) as (es & -> & Hc & Hv); [cbn in Hlen; lia|].
    exists (Embedded.mk c v :: es). cbn. now rewrite Hc, Hv.
Qed.

Lemma attach_more : forall (data : list vec) (batch : list Chunk.t),
  (List.length batch < List.length data)%nat ->
  attach batch data = Raise "list index out of range".
Proof.
  induction data as [|v data IH]; intros batch Hlen.
  - cbn in Hlen. lia.
  - destruct batch as [|c batch]; [reflexivity|]. cbn [attach].
    rewrite IH by (cbn in Hlen; lia). reflexivity.
Qed.

(** X8: when the embedding service computes the vector of a text from
    the text alone, every chunk comes back with the vector of its own
    text, whatever the number of chunks and batches. *)
Theorem generate_embeddings_own_text (f : pystr -> vec)
    (chunks : list Chunk.t) (st : state W) :
  (forall texts w, exists w',
      embeddings_create svc texts w = (Returns (map f texts), w')) ->
  exists st',
    generate_embeddings svc chunks st
    = (Ok (map (with_vector f) chunks), st').
Proof.
  intros Hsvc.
  assert (H : forall starts acc st0, exists st',
             embed_batches svc starts chunks acc st0
             = (Ok (acc ++ map (with_vector f)
                      (List.concat (map (fun i =>
                                 slice chunks i (i + embedding_batch_size))
                                 starts))), st')).
  { induction starts as [|i starts IH]; intros acc st0;
      cbn [embed_batches map List.concat].
    - exists st0. now rewrite app_nil_r.
    - cbv zeta.
      destruct (Hsvc (map Chunk.text
                        (slice chunks i (i + embedding_batch_size)))
                  (world st0)) as [w' Hcall].
      rewrite (bind_ok W (call_returns W Hcall)).
      unfold bind at 1. rewrite attach_own_text.
      rewrite map_app, app_assoc.
      destruct (i + embedding_batch_size <? len chunks);
        unfold bind at 1; cbn [update ret]; apply IH. }
  destruct (H (py_range 0 (len chunks) embedding_batch_size) [] st)
    as [st' Hrun].
  exists st'. unfold generate_embeddings. rewrite Hrun. cbn [app].
  fold (batches chunks embedding_batch_size).
  now rewrite batches_concat by reflexivity.
Qed.

(** X9: for a single batch (at most 100 chunks) the embedder trusts the
    length of the response: with fewer vectors than texts it returns
    only the first chunks, one per vector, and drops the others without
    any error; with more vectors than texts it raises the index error of
    [batch[j]]. *)
Theorem generate_embeddings_wrong_count (chunks : list Chunk.t)
    (st : state W) (vs : list vec) (w : W) :
  chunks <> [] ->
  len chunks <= embedding_batch_size ->
  embeddings_create svc (map Chunk.text chunks) (world st) = (Returns vs, w) ->
  ((List.length vs <= List.length chunks)%nat ->
   exists es,
     results_in (generate_embeddings svc chunks) st (Ok es) w /\
     map Embedded.chunk es = firstn (List.length vs) chunks /\
     map Embedded.embedding es = vs) /\
  ((List.length chunks < List.length vs)%nat ->
   results_in (generate_embeddings svc chunks) st
     (Raise "list index out of range") w).
Proof.
  intros Hne Hlen Hcall.
  assert (Hpos : 0 < len chunks).
  { destruct chunks as [|c0 rest0]; [congruence|]. rewrite len_cons.
    pose proof (len_nonneg rest0). lia. }
  assert (Hrange : py_range 0 (len chunks) embedding_batch_size = [0]).
  { unfold py_range, embedding_batch_size in *.
    replace ((len chunks - 0 + 100 - 1) / 100) with 1; [reflexivity|].
    apply Z.div_unique with (r := len chunks - 1); lia. }
  assert (Hslice : slice chunks 0 (0 + embedding_batch_size) = chunks).
  { rewrite slice_nonneg by (unfold embedding_batch_size; lia).
    rewrite Z.min_r, Z.min_l by lia. change (Z.to_nat 0) with O.
    cbn [skipn]. rewrite Z.sub_0_r. unfold len.
    now rewrite Nat2Z.id, firstn_all. }
  assert (Hrun : generate_embeddings svc chunks st
                 = bind (fun st0 => (attach chunks vs, st0))
                     (fun new => ret ([] ++ new))
                     {| world := w; stdout := stdout st |}).
  { unfold generate_embeddings. rewrite Hrange. cbn [embed_batches]. cbv zeta.
    rewrite Hslice. rewrite (bind_ok W (call_returns W Hcall)).
    destruct (Z.ltb_spec (0 + embedding_batch_size) (len chunks)); [lia|].
    unfold bind, ret. now destruct (attach chunks vs). }
  split; intros Hcount.
  - destruct (attach_fewer vs chunks Hcount) as (es & Ha & Hc & Hv).
    exists es. split; [|now split].
    apply results_in_eq with (out := stdout st). rewrite Hrun.
    unfold bind, ret. now rewrite Ha.
  - apply results_in_eq with (out := stdout st). rewrite Hrun.
    unfold bind. now rewrite (attach_more vs chunks Hcount).
Qed.

End EmbedderFurther.

(** ** The calls made to the services *)

Section Recording.

Variable vec : Type.
Variable f : pystr -> vec.

Lemma embed_batches_recorded (chunks : list Chunk.t) :
  forall starts acc st,
    embed_batches (recording_services f) starts chunks acc st
    = (Ok (acc ++ map (with_vector f)
             (List.concat (map (fun i => slice chunks i (i + embedding_batch_size))
                          starts))),
       {| world :=
            {| requests :=
                 requests (world st)
                   ++ map (fun i =>
                             map Chunk.text
                               (slice chunks i (i + embedding_batch_size)))
                          starts;
               upserts := upserts (world st);
               sleeps :=
                 sleeps (world st)
                   ++ flat_map (fun i =>
                                  if i + embedding_batch_size <? len chunks
                                  then [200] else [])
                               starts |};
          stdout := stdout st |}).
Proof.
  induction starts as [|i starts IH]; intros acc st;
    cbn [embed_batches map List.concat flat_map].
  - rewrite !app_nil_r. destruct st as [[r u s] out]. reflexivity.
  - cbv zeta. unfold bind at 1, call at 1.
    cbn [recording_services embeddings_create world stdout].
    unfold bind at 1. rewrite attach_own_text.
    destruct (i + embedding_batch_size <? len chunks);
      unfold bind at 1;
      cbn [update ret recording_services sleep world stdout requests
           upserts sleeps];
      rewrite IH; cbn [world stdout requests upserts sleeps];
      rewrite map_app, <- !app_assoc, ?app_nil_r; reflexivity.
Qed.

Lemma generate_embeddings_recorded (chunks : list Chunk.t)
    (st : state (recorder vec)) :
  generate_embeddings (recording_services f) chunks st
  = (Ok (map (with_vector f) chunks),
     {| world :=
          {| requests := requests (world st)
                           ++ map (map Chunk.text)
                                (batches chunks embedding_batch_size);
             upserts := upserts (world st);
             sleeps := sleeps (world st)
                         ++ repeat 200
                              (List.length
                                 (batches chunks embedding_batch_size) - 1) |};
        stdout := stdout st |}).
Proof.
  unfold generate_embeddings. rewrite embed_batches_recorded. cbn [app].
  fold (batches chunks embedding_batch_size).
  rewrite batches_concat by reflexivity.
  rewrite pauses_between_batches
    by (try reflexivity; apply len_nonneg).
  unfold batches at 1 2. rewrite map_map.
  unfold py_range. now rewrite !length_map, length_seq.
Qed.

(** X10: the embedder sends the chunk texts to the embedding service in
    order, in consecutive requests of between 1 and 100 texts that
    together are exactly the texts of the chunks, and pauses 200 ms
    between two requests but not after the last. *)
Theorem generate_embeddings_requests (chunks : list Chunk.t)
    (st : state (recorder vec)) :
  let sent := batches chunks embedding_batch_size in
  results_in (generate_embeddings (recording_services f) chunks) st
    (Ok (map (with_vector f) chunks))
    {| requests := requests (world st) ++ map (map Chunk.text) sent;
       upserts := upserts (world st);
       sleeps := sleeps (world st) ++ repeat 200 (List.length sent - 1) |} /\
  List.concat sent = chunks /\
  Forall (fun b => 0 < len b <= embedding_batch_size) sent.
Proof.
  cbv zeta. split; [|split].
  - apply results_in_eq with (out := stdout st).
    apply generate_embeddings_recorded.
  - now apply batches_concat.
  - now apply batches_sizes.
Qed.

Lemma upsert_batches_recorded index_name (vectors : list (IndexRecord.t vec)) :
  forall starts st,
    upsert_batches (recording_services f) index_name starts vectors st
    = (Ok tt,
       {| world :=
            {| requests := requests (world st);
               upserts :=
                 upserts (world st)
                   ++ map (fun i => slice vectors i (i + 100)) starts;
               sleeps := sleeps (world st)
                           ++ repeat 100 (List.length starts) |};
          stdout := stdout st |}).
Proof.
  induction starts as [|i starts IH]; intros st;
    cbn [upsert_batches map repeat List.length].
  - rewrite !app_nil_r. destruct st as [[r u s] out]. reflexivity.
  - cbv zeta. unfold bind at 1, call at 1.
    cbn [recording_services index_upsert world stdout].
    unfold bind at 1.
    cbn [update recording_services sleep world stdout requests upserts
         sleeps].
    rewrite IH. cbn [world stdout requests upserts sleeps].
    now rewrite <- !app_assoc.
Qed.

Lemma upload_to_pinecone_recorded (embeddings : list (Embedded.t vec))
    (index_name : string) (st : state (recorder vec)) :
  upload_to_pinecone (recording_services f) embeddings index_name st
  = (Ok tt,
     {| world :=
          {| requests := requests (world st);
             upserts := upserts (world st)
                          ++ batches (map to_vector embeddings) 100;
             sleeps := sleeps (world st)
                         ++ repeat 100
                              (List.length
                                 (batches (map to_vector embeddings) 100)) |};
        stdout := stdout st |}).
Proof.
  unfold upload_to_pinecone, bind at 1, call at 1.
  cbn [recording_services pinecone_Index world stdout].
  rewrite upsert_batches_recorded. cbn [world stdout].
  unfold batches. now rewrite length_map.
Qed.

(** X12: the upload writes one record per embedded chunk, in order, in
    consecutive upserts of between 1 and 100 records, pausing 100 ms
    after each; a record carries the id, the vector and the text, page,
    topic, task and role_min of its chunk with the two constant tags. *)
Theorem upload_to_pinecone_upserts (embeddings : list (Embedded.t vec))
    (index_name : string) (st : state (recorder vec)) :
  let written := batches (map to_vector embeddings) 100 in
  results_in (upload_to_pinecone (recording_services f) embeddings index_name)
    st (Ok tt)
    {| requests := requests (world st);
       upserts := upserts (world st) ++ written;
       sleeps := sleeps (world st) ++ repeat 100 (List.length written) |} /\
  List.concat written = map to_vector embeddings /\
  Forall (fun b => 0 < len b <= 100) written /\
  (forall e : Embedded.t vec,
      IndexRecord.id (to_vector e) = Embedded.id e /\
      IndexRecord.values (to_vector e) = Embedded.embedding e /\
      IndexRecord.metadata (to_vector e)
      = IndexRecord.mk_meta
          (Chunk.text (Embedded.chunk e)) (Chunk.page (Embedded.chunk e))
          (Chunk.topic (Embedded.chunk e)) (Chunk.task (Embedded.chunk e))
          (Chunk.role_min (Embedded.chunk e))
          "NextGen-User Manual.pdf" "documentation").
Proof.
  cbv zeta. split; [|split; [|split]].
  - apply results_in_eq with (out := stdout st).
    apply upload_to_pinecone_recorded.
  - now apply batches_concat.
  - now apply batches_sizes.
  - intros e. repeat split.
Qed.

(** X14: embedding and then uploading a list of chunks writes exactly one
    record per chunk, in chunk order, each under the id of its chunk and
    with the vector of its text: no chunk is lost, duplicated or
    reordered between the chunker's output and the index. *)
Theorem embed_then_upload_records (chunks : list Chunk.t)
    (index_name : string) (st : state (recorder vec)) :
  exists st',
    bind (generate_embeddings (recording_services f) chunks)
         (fun embeddings =>
            upload_to_pinecone (recording_services f) embeddings index_name)
         st
    = (Ok tt, st') /\
    exists written,
      upserts (world st') = upserts (world st) ++ written /\
      List.concat written
      = map (fun c => to_vector (with_vector f c)) chunks /\
      map (@IndexRecord.id vec) (List.concat written) = map Chunk.id chunks /\
      map (@IndexRecord.values vec) (List.concat written)
      = map (fun c => f (Chunk.text c)) chunks.
Proof.
  unfold bind. rewrite generate_embeddings_recorded.
  rewrite upload_to_pinecone_recorded.
  eexists. split; [reflexivity|].
  exists (batches (map to_vector (map (with_vector f) chunks)) 100).
  cbn [world upserts]. split; [reflexivity|].
  rewrite batches_concat by reflexivity. rewrite !map_map. repeat split.
Qed.

End Recording.

Section RefusedRequest.

Variable vec : Type.
Variable f : pystr -> vec.
Variable k : nat.
Variable e : string.

Lemma embed_batches_refused (chunks : list Chunk.t) :
  forall starts acc st,
    (List.length (requests (world st)) <= k)%nat ->
    (k - List.length (requests (world st)) < List.length starts)%nat ->
    exists pauses,
      embed_batches (refusing_embedder k e f) starts chunks acc st
      = (Raise e,
         {| world :=
              {| requests :=
                   requests (world st)
                     ++ map (fun i =>
                               map Chunk.text
                                 (slice chunks i (i + embedding_batch_size)))
                            (firstn (k - List.length (requests (world st)))
                                    starts);
                 upserts := upserts (world st);
                 sleeps := pauses |};
            stdout := stdout st |}).
Proof.
  induction starts as [|i starts IH]; intros acc st Hle Hlt;
    [cbn in Hlt; lia|].
  cbn [embed_batches]. cbv zeta. unfold bind at 1, call at 1.
  cbn [refusing_embedder embeddings_create].
  destruct (Nat.eqb_spec (List.length (requests (world st))) k) as [Heq|Hne].
  - rewrite Heq, Nat.sub_diag. cbn [firstn map]. rewrite app_nil_r.
    exists (sleeps (world st)). destruct st as [[r u s] out]. reflexivity.
  - cbn [recording_services embeddings_create world stdout].
    unfold bind at 1. rewrite attach_own_text.
    replace (k - List.length (requests (world st)))%nat
      with (S (k - (List.length (requests (world st)) + 1))) by lia.
    cbn [firstn map].
    destruct (i + embedding_batch_size <? len chunks);
      unfold bind at 1;
      cbn [update ret refusing_embedder recording_services sleep world
           stdout requests upserts sleeps];
      match goal with
      | |- context [embed_batches _ starts chunks ?a ?s] =>
          destruct (IH a s) as [pauses Hrun];
          [ cbn [world requests]; rewrite length_app; cbn [List.length];
            lia
          | cbn [world requests]; rewrite length_app; cbn [List.length];
            cbn in Hlt; lia
          | exists pauses; rewrite Hrun;
            cbn [world stdout requests upserts sleeps];
            rewrite length_app; cbn [List.length];
            now rewrite <- !app_assoc ]
      end.
Qed.

(** X11: a refused embedding request aborts the embedder at once: the
    exception of the service reaches the caller and no embedding is
    returned, not even those of the batches already answered; the
    requests before the refused one were made, none after it is. *)
Theorem generate_embeddings_stops_at_failure (chunks : list Chunk.t)
    (st : state (recorder vec)) :
  let sent := batches chunks embedding_batch_size in
  requests (world st) = [] ->
  (k < List.length sent)%nat ->
  exists pauses,
    results_in (generate_embeddings (refusing_embedder k e f) chunks) st
      (Raise e)
      {| requests := map (map Chunk.text) (firstn k sent);
         upserts := upserts (world st);
         sleeps := pauses |}.
Proof.
  cbv zeta. intros Hempty Hlt. unfold batches in *.
  rewrite length_map in Hlt. unfold generate_embeddings.
  destruct (embed_batches_refused chunks
              (py_range 0 (len chunks) embedding_batch_size) [] st)
    as [pauses Hrun]; rewrite ?Hempty; cbn [List.length]; try lia.
  exists pauses. apply results_in_eq with (out := stdout st).
  rewrite Hrun, Hempty. cbn [List.length app].
  now rewrite Nat.sub_0_r, firstn_map, map_map.
Qed.

End RefusedRequest.

Section RefusedUpsert.

Variable vec : Type.
Variable f : pystr -> vec.
Variable k : nat.
Variable e : string.

Lemma upsert_batches_refused index_name (vectors : list (IndexRecord.t vec)) :
  forall starts st,
    (List.length (upserts (world st)) <= k)%nat ->
    (k - List.length (upserts (world st)) < List.length starts)%nat ->
    upsert_batches (refusing_services k e f) index_name starts vectors st
    = (Raise e,
       {| world :=
            {| requests := requests (world st);
               upserts :=
                 upserts (world st)
                   ++ map (fun i => slice vectors i (i + 100))
                          (firstn (k - List.length (upserts (world st)))
                                  starts);
               sleeps :=
                 sleeps (world st)
                   ++ repeat 100 (k - List.length (upserts (world st))) |};
          stdout := stdout st |}).
Proof.
  induction starts as [|i starts IH]; intros st Hle Hlt;
    [cbn in Hlt; lia|].
  cbn [upsert_batches]. cbv zeta. unfold bind at 1, call at 1.
  cbn [refusing_services index_upsert].
  destruct (Nat.eqb_spec (List.length (upserts (world st))) k) as [Heq|Hne].
  - rewrite Heq, Nat.sub_diag. cbn [firstn map repeat].
    rewrite !app_nil_r. destruct st as [[r u s] out]. reflexivity.
  - cbn [recording_services index_upsert world stdout].
    unfold bind at 1.
    cbn [update refusing_services recording_services sleep world stdout
         requests upserts sleeps].
    rewrite IH; cbn [world stdout requests upserts sleeps];
      rewrite ?length_app; cbn [List.length]; cbn in Hlt; try lia.
    replace (k - List.length (upserts (world st)))%nat
      with (S (k - (List.length (upserts (world st)) + 1))) by lia.
    cbn [firstn map repeat]. now rewrite <- !app_assoc.
Qed.

(** X13: a refused upsert aborts the upload at once: the exception of
    the index reaches the caller, the batches before the refused one
    stay written, and the refused batch and all later ones are not
    sent. *)
Theorem upload_to_pinecone_stops_at_failure
    (embeddings : list (Embedded.t vec)) (index_name : string)
    (st : state (recorder vec)) :
  let written := batches (map to_vector embeddings) 100 in
  upserts (world st) = [] ->
  (k < List.length written)%nat ->
  results_in (upload_to_pinecone (refusing_services k e f) embeddings
                index_name)
    st (Raise e)
    {| requests := requests (world st);
       upserts := firstn k written;
       sleeps := sleeps (world st) ++ repeat 100 k |}.
Proof.
  cbv zeta. intros Hempty Hlt. apply results_in_eq with (out := stdout st).
  unfold upload_to_pinecone, bind at 1, call at 1.
  cbn [refusing_services recording_services pinecone_Index world stdout].
  unfold batches in *. rewrite length_map in Hlt.
  rewrite upsert_batches_refused;
    cbn [world stdout requests upserts sleeps]; rewrite Hempty;
    cbn [List.length app]; try lia.
  rewrite Nat.sub_0_r. now rewrite firstn_map.
Qed.

End RefusedUpsert.

(** ** Classifier *)

(** X6: topic, task and role_min are tied together: the role floor is 10
    only for settings, 5 only for reports, staff management and email,
    3 only for children and guardians, and 1 for every other topic; the
    task follows from the topic, except for children, where it is
    procedure or navigation. *)
Theorem detect_metadata_pairs {py : PyText} (text : pystr) (page_num : Z) :
  let m := detect_metadata text page_num in
  In (Metadata.topic m, Metadata.role_min m) topic_roles /\
  In (Metadata.topic m, Metadata.task m) topic_tasks /\
  NoDup (map fst topic_roles).
Proof.
  cbv zeta. split; [|split].
  - unfold detect_metadata, topic_roles.
    repeat match goal with
           | |- context [if re_search ?p ?t then _ else _] =>
               destruct (re_search p t)
           end; cbn [Metadata.topic Metadata.role_min]; pick_member.
  - unfold detect_metadata, topic_tasks.
    repeat match goal with
           | |- context [if re_search ?p ?t then _ else _] =>
               destruct (re_search p t)
           end; cbn [Metadata.topic Metadata.task]; pick_member.
  - unfold topic_roles. cbn [map fst].
    repeat (constructor; [cbn [In]; intuition discriminate|]). constructor.
Qed.

(** ** Statistics *)

Section Dictionaries.

Variable K : Type.
Variable eqb : K -> K -> bool.
Hypothesis eqb_eq : forall a b, eqb a b = true <-> a = b.
Variable dec : forall a b : K, {a = b} + {a <> b}.

Lemma bump_total k (d : list (K * nat)) : total (bump eqb k d) = S (total d).
Proof.
  induction d as [|[k' n] d IH]; cbn [bump total fold_right snd];
    [lia|].
  destruct (eqb k' k); cbn [total fold_right snd]; [lia|].
  fold (total (bump eqb k d)). fold (total d). rewrite IH. lia.
Qed.

Lemma bump_keys k (d : list (K * nat)) k' :
  In k' (map fst (bump eqb k d)) <-> k' = k \/ In k' (map fst d).
Proof.
  induction d as [|[k0 n] d IH]; cbn [bump map fst In].
  - intuition.
  - destruct (eqb k0 k) eqn:E; cbn [map fst In].
    + apply eqb_eq in E. subst. intuition.
    + rewrite IH. intuition.
Qed.

Lemma bump_nodup k (d : list (K * nat)) :
  NoDup (map fst d) -> NoDup (map fst (bump eqb k d)).
Proof.
  induction d as [|[k0 n] d IH]; cbn [bump map fst]; intros H.
  - constructor; [intros [] | constructor].
  - inversion H as [|? ? Hn Hd]; subst.
    destruct (eqb k0 k) eqn:E; cbn [map fst].
    + now constructor.
    + constructor; [|now apply IH].
      rewrite bump_keys. intros [->|Hin]; [|contradiction].
      assert (eqb k k = true) by now apply eqb_eq. congruence.
Qed.

Lemma bump_count k (d : list (K * nat)) k' :
  count_for eqb k' (bump eqb k d)
  = if eqb k k' then S (count_for eqb k' d) else count_for eqb k' d.
Proof.
  induction d as [|[k0 n] d IH]; cbn [bump count_for].
  - destruct (eqb k k'); reflexivity.
  - destruct (eqb k0 k) eqn:E0; cbn [count_for].
    + apply eqb_eq in E0. subst k0. destruct (eqb k k'); reflexivity.
    + destruct (eqb k0 k') eqn:E1; [|exact IH].
      apply eqb_eq in E1. subst k0.
      destruct (eqb k k') eqn:E2; [|reflexivity].
      apply eqb_eq in E2. subst k'.
      assert (eqb k k = true) by now apply eqb_eq. congruence.
Qed.

(** The dictionary built by bumping the keys of a list in turn. *)
Lemma tally_spec (keys : list K) : forall d,
  let d' := fold_left (fun acc k => bump eqb k acc) keys d in
  total d' = (total d + List.length keys)%nat /\
  (NoDup (map fst d) -> NoDup (map fst d')) /\
  (forall k, count_for eqb k d' = (count_for eqb k d + count_occ dec keys k)%nat).
Proof.
  induction keys as [|k keys IH]; intros d; cbn [fold_left].
  - cbv zeta. cbn. split; [lia|]. split; [auto|]. intros; lia.
  - destruct (IH (bump eqb k d)) as (H1 & H2 & H3). cbv zeta in *.
    split; [|split].
    + rewrite H1, bump_total. cbn [List.length]. lia.
    + intros Hd. apply H2. now apply bump_nodup.
    + intros k'. rewrite H3, bump_count. cbn [count_occ].
      destruct (dec k k') as [->|Hne].
      * assert (E : eqb k' k' = true) by now apply eqb_eq.
        rewrite E. lia.
      * destruct (eqb k k') eqn:E; [apply eqb_eq in E; contradiction | lia].
Qed.

Lemma insert_by_count_perm (x : K * nat) l :
  Permutation (x :: l) (insert_by_count x l).
Proof.
  induction l as [|y l IH]; cbn [insert_by_count]; [reflexivity|].
  destruct (snd x <? snd y)%nat; [|reflexivity].
  rewrite perm_swap. now constructor.
Qed.

Lemma sorted_by_count_perm (l : list (K * nat)) :
  Permutation l (sorted_by_count l).
Proof.
  induction l as [|x l IH]; cbn [sorted_by_count]; [reflexivity|].
  rewrite <- insert_by_count_perm. now constructor.
Qed.

Lemma insert_by_count_sorted (x : K * nat) l :
  StronglySorted (fun a b => (snd b <= snd a)%nat) l ->
  StronglySorted (fun a b => (snd b <= snd a)%nat) (insert_by_count x l).
Proof.
  induction l as [|y l IH]; cbn [insert_by_count]; intros H.
  - constructor; constructor.
  - inversion H as [|? ? Hs Hall]; subst.
    destruct (Nat.ltb_spec (snd x) (snd y)).
    + constructor; [now apply IH|].
      apply (Permutation_Forall (insert_by_count_perm x l)).
      constructor; [lia | exact Hall].
    + constructor; [exact H|]. constructor; [lia|].
      eapply Forall_impl; [|exact Hall]. cbv beta. intros; lia.
Qed.

Lemma sorted_by_count_sorted (l : list (K * nat)) :
  StronglySorted (fun a b => (snd b <= snd a)%nat) (sorted_by_count l).
Proof.
  induction l as [|x l IH]; cbn [sorted_by_count]; [constructor|].
  now apply insert_by_count_sorted.
Qed.

End Dictionaries.

Lemma insert_item_perm x l : Permutation (x :: l) (insert_item x l).
Proof.
  induction l as [|y l IH]; cbn [insert_item]; [reflexivity|].
  destruct (item_ltb y x); [|reflexivity].
  rewrite perm_swap. now constructor.
Qed.

Lemma sorted_items_perm l : Permutation l (sorted_items l).
Proof.
  induction l as [|x l IH]; cbn [sorted_items]; [reflexivity|].
  rewrite <- insert_item_perm. now constructor.
Qed.

Lemma insert_item_sorted x l :
  StronglySorted (fun a b => fst a <= fst b) l ->
  StronglySorted (fun a b => fst a <= fst b) (insert_item x l).
Proof.
  induction l as [|y l IH]; cbn [insert_item]; intros H.
  - constructor; constructor.
  - inversion H as [|? ? Hs Hall]; subst. unfold item_ltb.
    destruct (Z.ltb_spec (fst y) (fst x)); cbn [orb].
    + constructor; [now apply IH|].
      apply (Permutation_Forall (insert_item_perm x l)).
      constructor; [lia | exact Hall].
    + destruct (Z.eqb_spec (fst y) (fst x)); cbn [andb].
      * destruct (Nat.ltb_spec (snd y) (snd x)).
        -- constructor; [now apply IH|].
           apply (Permutation_Forall (insert_item_perm x l)).
           constructor; [lia | exact Hall].
        -- constructor; [exact H|]. constructor; [lia|].
           eapply Forall_impl; [|exact Hall]. cbv beta. intros; lia.
      * constructor; [exact H|]. constructor; [lia|].
        eapply Forall_impl; [|exact Hall]. cbv beta. intros; lia.
Qed.

Lemma sorted_items_sorted l :
  StronglySorted (fun a b => fst a <= fst b) (sorted_items l).
Proof.
  induction l as [|x l IH]; cbn [sorted_items]; [constructor|].
  now apply insert_item_sorted.
Qed.

Lemma count_metadata_components (chunks : list Chunk.t) : forall t k r,
  fold_left
    (fun '(topic_counts, task_counts, role_counts) chunk =>
       (bump String.eqb (Chunk.topic chunk) topic_counts,
        bump String.eqb (Chunk.task chunk) task_counts,
        bump Z.eqb (Chunk.role_min chunk) role_counts))
    chunks (t, k, r)
  = (fold_left (fun acc x => bump String.eqb x acc) (map Chunk.topic chunks) t,
     fold_left (fun acc x => bump String.eqb x acc) (map Chunk.task chunks) k,
     fold_left (fun acc x => bump Z.eqb x acc) (map Chunk.role_min chunks) r).
Proof.
  induction chunks as [|c chunks IH]; intros t k r; cbn [fold_left map];
    [reflexivity|]. apply IH.
Qed.

(** X18: the statistics count every chunk once in each of the three
    dictionaries: the counts of the topics, of the tasks and of the role
    floors each sum to the number of chunks, no key is listed twice, and
    the count of a key is the number of chunks carrying it.  The topics
    are shown by non-increasing count and the role floors by increasing
    value, both as rearrangements of the dictionary.  Printing them
    adds five lines to the output, raises nothing and touches no
    service. *)
Theorem print_metadata_stats_counts
    (repr_counts : list (string * nat) -> string)
    (repr_roles : list (Z * nat) -> string)
    (W : Type) (chunks : list Chunk.t) (st : state W) :
  let '(topics, tasks, roles) := count_metadata chunks in
  print_metadata_stats repr_counts repr_roles chunks st
  = (Ok tt,
     {| world := world st;
        stdout := stdout st
          ++ [ "📊 Metadata Distribution:";
               "  Topics: " ++ repr_counts (sorted_by_count topics);
               "  Tasks: " ++ repr_counts tasks;
               "  Role Minimums: " ++ repr_roles (sorted_items roles);
               EmptyString ]%string |}) /\
  (total topics = List.length chunks /\
   total tasks = List.length chunks /\
   total roles = List.length chunks) /\
  (NoDup (map fst topics) /\ NoDup (map fst tasks) /\ NoDup (map fst roles)) /\
  (forall k,
      count_for String.eqb k topics
      = count_occ string_dec (map Chunk.topic chunks) k) /\
  (forall k,
      count_for String.eqb k tasks
      = count_occ string_dec (map Chunk.task chunks) k) /\
  (forall k,
      count_for Z.eqb k roles
      = count_occ Z.eq_dec (map Chunk.role_min chunks) k) /\
  Permutation topics (sorted_by_count topics) /\
  StronglySorted (fun a b => (snd b <= snd a)%nat) (sorted_by_count topics) /\
  Permutation roles (sorted_items roles) /\
  StronglySorted (fun a b => fst a <= fst b) (sorted_items roles).
Proof.
  unfold print_metadata_stats.
  destruct (count_metadata chunks) as [[topics tasks] roles] eqn:E.
  unfold count_metadata in E. rewrite count_metadata_components in E.
  injection E as Et Ek Er.
  destruct (tally_spec string String.eqb String.eqb_eq string_dec
              (map Chunk.topic chunks) []) as (T1 & T2 & T3).
  destruct (tally_spec string String.eqb String.eqb_eq string_dec
              (map Chunk.task chunks) []) as (K1 & K2 & K3).
  destruct (tally_spec Z Z.eqb Z.eqb_eq Z.eq_dec
              (map Chunk.role_min chunks) []) as (R1 & R2 & R3).
  cbv zeta in *. rewrite Et in T1, T2, T3. rewrite Ek in K1, K2, K3.
  rewrite Er in R1, R2, R3. rewrite length_map in T1, K1, R1.
  split.
  { unfold bind, print. cbn [world stdout]. now rewrite <- !app_assoc. }
  split; [cbn in T1, K1, R1; auto|].
  split; [repeat split; [apply T2 | apply K2 | apply R2]; constructor|].
  split; [intros k; now rewrite T3|].
  split; [intros k; now rewrite K3|].
  split; [intros k; now rewrite R3|].
  split; [apply sorted_by_count_perm|].
  split; [apply sorted_by_count_sorted|].
  split; [apply sorted_items_perm | apply sorted_items_sorted].
Qed.

(** ** The further properties at concrete inputs *)

Lemma plain_check text :
  forallb (fun c => negb (is_space c) && negb (N.eqb c period)) text = true ->
  plain text.
Proof.
  intros H. apply Forall_forall. intros c Hc.
  rewrite forallb_forall in H. specialize (H c Hc).
  apply andb_true_iff in H as [H1 H2].
  apply negb_true_iff in H1, H2. split; [exact H1|].
  now apply N.eqb_neq.
Qed.

Lemma short_page_first_chunk_witness :
  chunks (steps (py := ascii_text) 2 (entry [Page.mk 7 stall_text] 0))
  = [new_chunk (py := ascii_text) 0 (strip stall_text) 7].
Proof.
  apply (@short_page_first_chunk ascii_text (Page.mk 7 stall_text) [] 0%nat).
  - vm_compute. discriminate.
  - vm_compute. reflexivity.
Defined.

Lemma window_plain_text_witness :
  len (window letters_text 650) = chunk_size /\
  650 + (len (window letters_text 650) - chunk_overlap) = 650 + 650.
Proof.
  destruct (window_plain_text letters_text 650) as (_ & H1 & H2 & _).
  - apply plain_check. vm_compute. reflexivity.
  - lia.
  - vm_compute. discriminate.
  - split; [exact H1 | exact H2].
Defined.

Lemma window_breaks_at_period_witness :
  exists a b,
    slice sentence_text 0 (0 + chunk_size) = a ++ [period] ++ b /\
    ~ In period b /\
    len a = rfind period (slice sentence_text 0 (0 + chunk_size)) /\
    window sentence_text 0 = lstrip a ++ [period].
Proof.
  apply (window_breaks_at_period sentence_text 0).
  - lia.
  - vm_compute. reflexivity.
  - vm_compute. reflexivity.
  - vm_compute. reflexivity.
Defined.

Lemma extract_text_from_pdf_pages_witness :
  exists pages,
    results_in
      (extract_text_from_pdf
         (local_services [str "Cover"; str "  "; str "Chapter 1"]) pdf_path)
      initial_state (Ok pages) tt /\
    (forall p,
        In p pages <->
        exists i,
          nth_error [str "Cover"; str "  "; str "Chapter 1"] i
            = Some (Page.text p) /\
          Page.page_num p = Z.of_nat i + 1 /\
          strip (Page.text p) <> []) /\
    StronglySorted Z.lt (map Page.page_num pages) /\
    Forall (fun p => Page.text p <> []) pages.
Proof.
  apply (extract_text_from_pdf_pages unit (list Z)
           (local_services [str "Cover"; str "  "; str "Chapter 1"])
           pdf_path initial_state
           [str "Cover"; str "  "; str "Chapter 1"] tt).
  reflexivity.
Defined.

Lemma main_hangs_on_text_witness :
  fst (main (py := ascii_text) (document_services [str "Hello world"]) 1000
         empty_recorder) = Hangs /\
  world (snd (main (py := ascii_text) (document_services [str "Hello world"])
                1000 empty_recorder))
  = {| requests := []; upserts := []; sleeps := [3000] |}.
Proof.
  apply (@main_hangs_on_text ascii_text (recorder (list Z)) (list Z)
           (document_services [str "Hello world"]) 1000%nat "set"%string
           empty_recorder
           {| world := {| requests := []; upserts := []; sleeps := [3000] |};
              stdout := ["🗑️  Clearing Pinecone index..."; "✅ Index cleared";
                         EmptyString]%string |}
           [str "Hello world"]
           {| requests := []; upserts := []; sleeps := [3000] |}).
  - repeat split; try reflexivity. discriminate.
  - reflexivity.
  - reflexivity.
  - constructor. vm_compute. discriminate.
Defined.

Lemma main_returns_without_text_witness :
  fst (main (py := ascii_text) (document_services [str "  "; []]) 0
         empty_recorder) = Returned /\
  world (snd (main (py := ascii_text) (document_services [str "  "; []]) 0
                empty_recorder))
  = {| requests := []; upserts := []; sleeps := [3000] |}.
Proof.
  apply (@main_returns_without_text ascii_text (recorder (list Z)) (list Z)
           (document_services [str "  "; []]) 0%nat "set"%string
           empty_recorder
           {| world := {| requests := []; upserts := []; sleeps := [3000] |};
              stdout := ["🗑️  Clearing Pinecone index..."; "✅ Index cleared";
                         EmptyString]%string |}
           [str "  "; []]
           {| requests := []; upserts := []; sleeps := [3000] |}
           {| requests := []; upserts := []; sleeps := [3000] |}).
  - repeat split; try reflexivity. discriminate.
  - reflexivity.
  - reflexivity.
  - repeat constructor.
  - reflexivity.
Defined.

Lemma delete_all_vectors_success_witness :
  delete_all_vectors (local_services []) "set" initial_state
  = (Ok tt,
     {| world := tt;
        stdout := ["🗑️  Clearing Pinecone index..."; "✅ Index cleared";
                   EmptyString]%string |}).
Proof.
  apply (delete_all_vectors_success unit (list Z) (local_services [])
           "set"%string initial_state tt tt); reflexivity.
Defined.

Lemma generate_embeddings_own_text_witness :
  exists st',
    generate_embeddings (local_services []) sample_chunks initial_state
    = (Ok (map (with_vector (fun t => [len t])) sample_chunks), st').
Proof.
  apply (generate_embeddings_own_text unit (list Z) (local_services [])
           (fun t => [len t]) sample_chunks initial_state).
  intros texts w. exists w. reflexivity.
Defined.

Lemma generate_embeddings_wrong_count_witness :
  exists es,
    results_in (generate_embeddings truncating_services sample_chunks)
      initial_state (Ok es) tt /\
    map Embedded.chunk es = firstn 1 sample_chunks /\
    map Embedded.embedding es = [[5]].
Proof.
  destruct (generate_embeddings_wrong_count unit (list Z) truncating_services
              sample_chunks initial_state [[5]] tt) as [H _].
  - discriminate.
  - vm_compute. discriminate.
  - reflexivity.
  - apply H. cbn. lia.
Defined.

Lemma upload_to_pinecone_stops_at_failure_witness :
  results_in
    (upload_to_pinecone
       (refusing_services 1 "(503) Service Unavailable" (fun t => [len t]))
       many_embeddings "set")
    empty_recorder (Raise "(503) Service Unavailable")
    {| requests := [];
       upserts := firstn 1 (batches (map to_vector many_embeddings) 100);
       sleeps := [100] |}.
Proof.
  apply (upload_to_pinecone_stops_at_failure (list Z)
           (fun t => [len t]) 1 "(503) Service Unavailable"
           many_embeddings "set"%string empty_recorder).
  - reflexivity.
  - vm_compute. lia.
Defined.

Lemma generate_embeddings_stops_at_failure_witness :
  exists pauses,
    results_in
      (generate_embeddings
         (refusing_embedder 1 "(429) Rate limit reached" (fun t => [len t]))
         (map Embedded.chunk many_embeddings))
      empty_recorder (Raise "(429) Rate limit reached")
      {| requests :=
           map (map Chunk.text)
               (firstn 1 (batches (map Embedded.chunk many_embeddings)
                                  embedding_batch_size));
         upserts := [];
         sleeps := pauses |}.
Proof.
  apply (generate_embeddings_stops_at_failure (list Z) (fun t => [len t]) 1
           "(429) Rate limit reached"
           (map Embedded.chunk many_embeddings) empty_recorder).
  - reflexivity.
  - vm_compute. lia.
Defined.
